(** * Perceptor: the hub actor, the hub manager and the coordinator loops

    A shallow embedding of
    - [pkg/hub/hub.go]          (module [Hub]),
    - [pkg/core/hubmanager.go]  (module [HubManager]),
    - the coordinator of package [core], type [Perceptor] (module [Perceptor]),
    followed by the properties of the specification that concern them.

    Go values are modelled as follows.  An [error] is identified with its
    message and the nil error is [None].  A [time.Duration] is its number of
    nanoseconds.  A [chan struct{}] that is only ever closed is its
    open/closed state, kept by its owner; whoever else was handed the
    channel holds a reference that names it.  A [map[string]V] is a
    [gmap string V].  A slice is a
    list.  Effects that leave the function (calls on a timer, sends on the
    action channel, sleeps, log lines) are returned as a trace. *)

From Stdlib Require Import ZArith Lia.
From stdpp Require Import base option list strings gmap fin_maps fin_sets.

Open Scope Z_scope.
#[local] Set Warnings "-clear-no-such-hyp".

(** ** Go primitives *)

Module Go.

Definition error : Type := string.

(** [time.Duration]: nanoseconds. *)
Definition Duration : Type := Z.
Definition Second : Duration := 1000000000.
Definition Minute : Duration := 60 * Second.
Definition Hour : Duration := 60 * Minute.

(** A channel of [struct{}] used as a stop signal. *)
Inductive chan : Type := ChanOpen | ChanClosed.

(** What a call that may panic produces. *)
Inductive outcome (A : Type) : Type :=
| Returns (a : A)
| Panics (msg : string).
Arguments Returns {A} a.
Arguments Panics {A} msg.

(** The builtin [close]: closing a closed channel is a run-time panic. *)
Definition close (c : chan) : outcome chan :=
  match c with
  | ChanOpen => Returns ChanClosed
  | ChanClosed => Panics "close of closed channel"
  end.

(** A receive [<-c] on a stop channel can proceed exactly when [c] is closed
    (nothing is ever sent on it). *)
Definition recv_ready (c : chan) : bool :=
  match c with
  | ChanOpen => false
  | ChanClosed => true
  end.

End Go.

(** ** pkg/hub/hub.go *)

Module Hub.
Import Go.

(** Modelled from the spec: the declaration of [ClientStatus] is not in
    hub.go; the client-status state machine has the states [Down]
    (initial) and [Up]. *)
Inductive ClientStatus : Type := ClientStatusUp | ClientStatusDown.

#[export] Instance ClientStatus_eq_dec : EqDecision ClientStatus.
Proof. solve_decision. Defined.

(** Go channels are shared by reference: whoever was handed a channel sees
    its owner close it.  A reference names a channel; the three channels
    [NewHub] makes for a hub are named after the hub's host. *)
Inductive ChanRef : Type :=
| StopCh (host : string)
| ActionsCh (host : string)
| PublishUpdatesCh (host : string).

#[export] Instance ChanRef_eq_dec : EqDecision ChanRef.
Proof. solve_decision. Defined.

(** [util.Timer] is outside hub.go: the hub only constructs timers, handing
    each its name, its pause, the stop channel [hub.stop] and a task, and
    calls [Pause] and [Resume] on them, each returning an error.  The tasks
    are closures over the hub and are left out of the timer state. *)
Class TimerAPI (T : Type) : Type := {
  NewTimer : string → Duration → ChanRef → T;
  NewRunningTimer : string → Duration → ChanRef → bool → T;
  Pause : T → T * option error;
  Resume : bool → T → T * option error
}.

Record Timings : Type := mkTimings {
  GetMetricsPause : Duration;
  ScanCompletionPause : Duration;
  FetchUnknownScansPause : Duration;
  FetchAllScansPause : Duration;
  LoginPause : Duration;
  RefreshScanThreshold : Duration
}.

(** The fields of [Hub] that hub.go itself reads and writes.  [client] and
    [model] are values of types declared elsewhere, [publishUpdatesCh] and
    [actions] are unbuffered channels and hold no state. *)
Record Hub (T : Type) : Type := mkHub {
  host : string;
  status : ClientStatus;
  errors : list error;
  getMetricsTimer : T;
  loginTimer : T;
  refreshScansTimer : T;
  fetchAllScansTimer : T;
  fetchScansTimer : T;
  checkScansForCompletionTimer : T;
  stop : chan
}.
Arguments mkHub {T}.
Arguments host {T}.
Arguments status {T}.
Arguments errors {T}.
Arguments getMetricsTimer {T}.
Arguments loginTimer {T}.
Arguments refreshScansTimer {T}.
Arguments fetchAllScansTimer {T}.
Arguments fetchScansTimer {T}.
Arguments checkScansForCompletionTimer {T}.
Arguments stop {T}.

Inductive TimerId : Type :=
| GetMetricsTimer
| LoginTimer
| RefreshScansTimer
| FetchAllScansTimer
| FetchScansTimer
| CheckScansForCompletionTimer.

Inductive TimerOp : Type :=
| OpPause
| OpResume (runImmediately : bool).

(** One call [hub.<timer>.Pause()] or [hub.<timer>.Resume(b)]. *)
Definition TimerCall : Type := TimerId * TimerOp.

Section WithTimer.
Context {T : Type} `{!TimerAPI T}.

Definition timerOf (id : TimerId) (hub : Hub T) : T :=
  match id with
  | GetMetricsTimer => getMetricsTimer hub
  | LoginTimer => loginTimer hub
  | RefreshScansTimer => refreshScansTimer hub
  | FetchAllScansTimer => fetchAllScansTimer hub
  | FetchScansTimer => fetchScansTimer hub
  | CheckScansForCompletionTimer => checkScansForCompletionTimer hub
  end.

Definition setTimer (id : TimerId) (t : T) (hub : Hub T) : Hub T :=
  match id with
  | GetMetricsTimer =>
      mkHub (host hub) (status hub) (errors hub) t (loginTimer hub)
        (refreshScansTimer hub) (fetchAllScansTimer hub)
        (fetchScansTimer hub) (checkScansForCompletionTimer hub) (stop hub)
  | LoginTimer =>
      mkHub (host hub) (status hub) (errors hub) (getMetricsTimer hub) t
        (refreshScansTimer hub) (fetchAllScansTimer hub)
        (fetchScansTimer hub) (checkScansForCompletionTimer hub) (stop hub)
  | RefreshScansTimer =>
      mkHub (host hub) (status hub) (errors hub) (getMetricsTimer hub)
        (loginTimer hub) t (fetchAllScansTimer hub)
        (fetchScansTimer hub) (checkScansForCompletionTimer hub) (stop hub)
  | FetchAllScansTimer =>
      mkHub (host hub) (status hub) (errors hub) (getMetricsTimer hub)
        (loginTimer hub) (refreshScansTimer hub) t
        (fetchScansTimer hub) (checkScansForCompletionTimer hub) (stop hub)
  | FetchScansTimer =>
      mkHub (host hub) (status hub) (errors hub) (getMetricsTimer hub)
        (loginTimer hub) (refreshScansTimer hub) (fetchAllScansTimer hub)
        t (checkScansForCompletionTimer hub) (stop hub)
  | CheckScansForCompletionTimer =>
      mkHub (host hub) (status hub) (errors hub) (getMetricsTimer hub)
        (loginTimer hub) (refreshScansTimer hub) (fetchAllScansTimer hub)
        (fetchScansTimer hub) t (stop hub)
  end.

Definition setStatus (s : ClientStatus) (hub : Hub T) : Hub T :=
  mkHub (host hub) s (errors hub) (getMetricsTimer hub) (loginTimer hub)
    (refreshScansTimer hub) (fetchAllScansTimer hub) (fetchScansTimer hub)
    (checkScansForCompletionTimer hub) (stop hub).

Definition setErrors (es : list error) (hub : Hub T) : Hub T :=
  mkHub (host hub) (status hub) es (getMetricsTimer hub) (loginTimer hub)
    (refreshScansTimer hub) (fetchAllScansTimer hub) (fetchScansTimer hub)
    (checkScansForCompletionTimer hub) (stop hub).

Definition setStop (c : chan) (hub : Hub T) : Hub T :=
  mkHub (host hub) (status hub) (errors hub) (getMetricsTimer hub)
    (loginTimer hub) (refreshScansTimer hub) (fetchAllScansTimer hub)
    (fetchScansTimer hub) (checkScansForCompletionTimer hub) c.

(** The six [start...Timer] methods: the name is
    [fmt.Sprintf("<job>-%s", hub.host)] and the stop channel is [hub.stop];
    [login] and [getMetrics] are created running, the other four with
    [util.NewTimer]. *)
Definition startRefreshScansTimer (h : string) (pause : Duration) : T :=
  NewTimer ("refresh-scans-" +:+ h) pause (StopCh h).
Definition startLoginTimer (h : string) (pause : Duration) : T :=
  NewRunningTimer ("login-" +:+ h) pause (StopCh h) true.
Definition startFetchAllScansTimer (h : string) (pause : Duration) : T :=
  NewTimer ("fetchScans-" +:+ h) pause (StopCh h).
Definition startFetchUnknownScansTimer (h : string) (pause : Duration) : T :=
  NewTimer ("fetchUnknownScans-" +:+ h) pause (StopCh h).
Definition startGetMetricsTimer (h : string) (pause : Duration) : T :=
  NewRunningTimer ("getMetrics-" +:+ h) pause (StopCh h) true.
Definition startCheckScansForCompletionTimer (h : string) (pause : Duration) : T :=
  NewTimer ("checkScansForCompletion-" +:+ h) pause (StopCh h).

(** The state in which the holder of a channel reference finds the channel:
    the stop channel of this hub is as the hub left it; this hub closes no
    other channel. *)
Definition chanState (hub : Hub T) (r : ChanRef) : chan :=
  if decide (r = StopCh (host hub)) then stop hub else ChanOpen.

(** [NewHub]: status down, no errors, stop channel open. *)
Definition NewHub (h : string) (timings : Timings) : Hub T :=
  {| host := h;
     status := ClientStatusDown;
     errors := [];
     getMetricsTimer := startGetMetricsTimer h (GetMetricsPause timings);
     checkScansForCompletionTimer :=
       startCheckScansForCompletionTimer h (ScanCompletionPause timings);
     fetchScansTimer :=
       startFetchUnknownScansTimer h (FetchUnknownScansPause timings);
     fetchAllScansTimer := startFetchAllScansTimer h (FetchAllScansPause timings);
     loginTimer := startLoginTimer h (LoginPause timings);
     refreshScansTimer := startRefreshScansTimer h (RefreshScanThreshold timings);
     stop := ChanOpen |}.

(** The body of [recordError] on the slice [hub.errors]:
    [append] when [err != nil], then [errors[500:]] when
    [len(errors) > 1000]. *)
Definition recordErrorRing (err : option error) (ring : list error) : list error :=
  let ring1 := match err with
               | Some e => ring ++ [e]
               | None => ring
               end in
  if decide (1000 < length ring1)%nat then drop 500 ring1 else ring1.

Definition recordError (err : option error) (hub : Hub T) : Hub T :=
  setErrors (recordErrorRing err (errors hub)) hub.

Definition applyTimerOp (op : TimerOp) (t : T) : T * option error :=
  match op with
  | OpPause => Pause t
  | OpResume b => Resume b t
  end.

(** [hub.recordError(hub.<id>.<op>())], with the call added to the trace. *)
Definition recordTimerCall (id : TimerId) (op : TimerOp)
    (st : Hub T * list TimerCall) : Hub T * list TimerCall :=
  let r := applyTimerOp op (timerOf id st.1) in
  (recordError r.2 (setTimer id r.1 st.1), st.2 ++ [(id, op)]).

(** The closure that [didLogin] sends on [hub.actions] (it returns nil). *)
Definition didLogin (err : option error) (hub : Hub T) : Hub T * list TimerCall :=
  let hub1 := recordError err hub in
  match err, status hub1 with
  | Some _, ClientStatusUp =>
      let st0 := (setStatus ClientStatusDown hub1, []) in
      let st1 := recordTimerCall CheckScansForCompletionTimer OpPause st0 in
      let st2 := recordTimerCall FetchScansTimer OpPause st1 in
      let st3 := recordTimerCall FetchAllScansTimer OpPause st2 in
      recordTimerCall RefreshScansTimer OpPause st3
  | None, ClientStatusDown =>
      let st0 := (setStatus ClientStatusUp hub1, []) in
      let st1 := recordTimerCall CheckScansForCompletionTimer (OpResume true) st0 in
      let st2 := recordTimerCall FetchScansTimer (OpResume true) st1 in
      let st3 := recordTimerCall FetchAllScansTimer (OpResume true) st2 in
      recordTimerCall RefreshScansTimer (OpResume true) st3
  | _, _ => (hub1, [])
  end.

(** [Stop]: [close(hub.stop)]. *)
Definition Stop (hub : Hub T) : outcome (Hub T) :=
  match close (stop hub) with
  | Returns c => Returns (setStop c hub)
  | Panics msg => Panics msg
  end.

(** Two calls of [Stop] in a row; a panic of the first ends the run. *)
Definition StopTwice (hub : Hub T) : outcome (Hub T) :=
  match Stop hub with
  | Returns hub1 => Stop hub1
  | Panics msg => Panics msg
  end.

(** One turn of the action-processing loop of [NewHub]:
    [select { case <-hub.stop: return; case action := <-hub.actions: ... }].
    [pending] tells whether a sender is waiting on [hub.actions]. The
    result lists the cases [select] may choose; none means it blocks. *)
Inductive LoopCase : Type := LoopReturn | LoopApply.

Definition actorSelect (hub : Hub T) (pending : bool) : list LoopCase :=
  (if recv_ready (stop hub) then [LoopReturn] else [])
  ++ (if pending then [LoopApply] else []).

End WithTimer.

#[export] Instance TimerId_eq_dec : EqDecision TimerId.
Proof. solve_decision. Defined.

#[export] Instance TimerOp_eq_dec : EqDecision TimerOp.
Proof. solve_decision. Defined.

(** The four timers [didLogin] pauses and resumes, in the order of its calls. *)
Definition dataTimers : list TimerId :=
  [CheckScansForCompletionTimer; FetchScansTimer; FetchAllScansTimer;
   RefreshScansTimer].

(** The operations a trace of timer calls makes on one timer, in order. *)
Definition opsOn (id : TimerId) (calls : list TimerCall) : list TimerOp :=
  (filter (λ c, c.1 = id) calls).*2.

Section WithTimerLoop.
Context {T : Type} `{!TimerAPI T}.

(** The action loop of [NewHub] applying, in arrival order, the [didLogin]
    closures of successive login results; the timer calls are accumulated. *)
Definition processLogins (errs : list (option error))
    (st : Hub T * list TimerCall) : Hub T * list TimerCall :=
  foldl (λ st err, ((didLogin err st.1).1, st.2 ++ (didLogin err st.1).2)) st errs.

End WithTimerLoop.

(** Modelled from the spec: the contract of [util.Timer] about its stop
    signal (package [util] is not part of the sources).  A timer keeps the
    stop channel it was constructed with, through [Pause] and [Resume]; once
    that channel is closed the timer runs its task no more.
    [TimerMayFire c t] tells whether [t] may still run its task when it
    finds its stop channel in state [c]. *)
Class TimerContract (T : Type) `{!TimerAPI T} : Type := {
  TimerStopCh : T → ChanRef;
  TimerMayFire : chan → T → bool;
  stopCh_NewTimer name pause r : TimerStopCh (NewTimer name pause r) = r;
  stopCh_NewRunningTimer name pause r runNow :
    TimerStopCh (NewRunningTimer name pause r runNow) = r;
  stopCh_Pause t : TimerStopCh (Pause t).1 = TimerStopCh t;
  stopCh_Resume runNow t : TimerStopCh (Resume runNow t).1 = TimerStopCh t;
  mayFire_closed t : TimerMayFire ChanClosed t = false
}.

Section WithTimerContract.
Context {T : Type} `{!TimerAPI T} `{!TimerContract T}.

(** Whether a timer of the hub may still run its task: the timer looks at
    the channel it was handed, in the state the hub left that channel in. *)
Definition timerMayFire (id : TimerId) (hub : Hub T) : bool :=
  TimerMayFire (chanState hub (TimerStopCh (timerOf id hub))) (timerOf id hub).

End WithTimerContract.

(** Modelled from the spec: [util.Timer] (package [util] is not part of the
    sources).  A timer has a name, a pause, a stop channel and is either
    scheduling or paused; [Pause] on a paused timer and [Resume] on a
    running one return an error; [Resume(true)] fires the task once at
    once; a running timer may fire as long as its stop channel is open. *)
Record SpecTimer : Type := mkSpecTimer {
  timerName : string;
  timerPause : Duration;
  timerStopCh : ChanRef;
  timerRunning : bool;
  timerFires : nat
}.

#[export] Instance SpecTimerAPI : TimerAPI SpecTimer := {|
  NewTimer name pause stopCh := mkSpecTimer name pause stopCh false 0;
  NewRunningTimer name pause stopCh runNow :=
    mkSpecTimer name pause stopCh true (if runNow then 1 else 0);
  Pause t :=
    if timerRunning t
    then (mkSpecTimer (timerName t) (timerPause t) (timerStopCh t) false
            (timerFires t), None)
    else (t, Some ("cannot pause timer " +:+ timerName t +:+ ": already paused"));
  Resume runNow t :=
    if timerRunning t
    then (t, Some ("cannot resume timer " +:+ timerName t +:+ ": already running"))
    else (mkSpecTimer (timerName t) (timerPause t) (timerStopCh t) true
            (if runNow then S (timerFires t) else timerFires t), None)
|}.

#[export] Instance SpecTimerContract : TimerContract SpecTimer.
Proof.
  refine {| TimerStopCh := timerStopCh;
            TimerMayFire c t := negb (recv_ready c) && timerRunning t |}.
  - reflexivity.
  - reflexivity.
  - intros t. cbn. by destruct (timerRunning t).
  - intros runNow t. cbn. by destruct (timerRunning t).
  - reflexivity.
Defined.

Definition defaultTimings : Timings :=
  {| GetMetricsPause := 15 * Second;
     ScanCompletionPause := 1 * Minute;
     FetchUnknownScansPause := 1 * Minute;
     FetchAllScansPause := 30 * Minute;
     LoginPause := 30 * Second;
     RefreshScanThreshold := 1 * Hour |}.

(** A fresh hub, the same hub after a first successful login, and the fresh
    hub after a thousand recorded errors. *)
Definition freshHub : Hub SpecTimer := NewHub "h1" defaultTimings.
Definition loggedInHub : Hub SpecTimer := (didLogin None freshHub).1.
Definition fullHub : Hub SpecTimer :=
  foldl (λ hub e, recordError e hub) freshHub (replicate 1000 (Some "old")).

(** The hub with a full ring, taken to be up although its data timers were
    never resumed. *)
Definition fullHubUp : Hub SpecTimer := setStatus ClientStatusUp fullHub.

End Hub.


(** ** pkg/core/hubmanager.go *)

Module HubManager.
Import Go.

(** [hub.ClientInterface] as hubmanager.go uses it, with the constructor
    [hub.NewClient(username, password, hubURL, port, httpTimeout, ...)].
    A method call on a client gives the client after the call. *)
Class ClientInterface (C : Type) : Type := {
  NewClient : string → string → string → Z → Duration → Duration → C;
  ClientStop : C → C;
  ClientStartScanClient : string → C → C;
  ClientFinishScanClient : string → C → C
}.

Record HubManager (C : Type) : Type := mkHubManager {
  username : string;
  password : string;
  port : Z;
  httpTimeout : Duration;
  hubs : gmap string C
}.
Arguments mkHubManager {C}.
Arguments username {C}.
Arguments password {C}.
Arguments port {C}.
Arguments httpTimeout {C}.
Arguments hubs {C}.

(** A manager together with what [SetHubs] does to the outside: the clients
    it called [Stop()] on (as they are after the call) and the lines it
    logged with [log.Errorf]. *)
Record World (C : Type) : Type := mkWorld {
  manager : HubManager C;
  stopped : list (string * C);
  logged : list string
}.
Arguments mkWorld {C}.
Arguments manager {C}.
Arguments stopped {C}.
Arguments logged {C}.

(** The two loops of [SetHubs] run on different goroutines; a step is one
    turn of either loop. *)
Inductive Step : Type :=
| CreateStep (hubURL : string)
| DeleteStep (hubURL : string).

#[export] Instance Step_eq_dec : EqDecision Step.
Proof. solve_decision. Defined.

Definition creates (sched : list Step) : list string :=
  omap (λ s, match s with CreateStep u => Some u | DeleteStep _ => None end) sched.

Definition deletes (sched : list Step) : list string :=
  omap (λ s, match s with DeleteStep u => Some u | CreateStep _ => None end) sched.

Section WithClient.
Context {C : Type} `{!ClientInterface C}.

Definition setHubsMap (m : gmap string C) (hm : HubManager C) : HubManager C :=
  mkHubManager (username hm) (password hm) (port hm) (httpTimeout hm) m.

Definition NewHubManager (user pass : string) (p : Z) (timeout : Duration)
    : HubManager C :=
  mkHubManager user pass p timeout ∅.

(** The client [create] makes for a URL. *)
Definition newClientFor (hm : HubManager C) (hubURL : string) : C :=
  NewClient (username hm) (password hm) hubURL (port hm) (httpTimeout hm)
    (999999 * Hour).

Definition create (hubURL : string) (hm : HubManager C)
    : HubManager C * option error :=
  match hubs hm !! hubURL with
  | Some _ => (hm, Some ("cannot create hub " +:+ hubURL +:+ ": already exists"))
  | None =>
      let hubClient := newClientFor hm hubURL in
      (setHubsMap (<[hubURL := hubClient]> (hubs hm)) hm, None)
  end.

(** The first two loops of [SetHubs]: the set of the given URLs, and those
    of them that are not keys of [hm.hubs]. *)
Definition newHubURLsOf (hubURLs : list string) : gset string :=
  list_to_set hubURLs.

Definition hubsToCreateOf (hm : HubManager C) (newHubURLs : gset string)
    : gset string :=
  filter (λ hubURL, hubs hm !! hubURL = None) newHubURLs.

(** One turn of the loop in the goroutine:
    [err := hm.create(hubURL); if err != nil { log.Errorf(...) }]. *)
Definition createStep (hubURL : string) (w : World C) : World C :=
  let r := create hubURL (manager w) in
  mkWorld r.1 (stopped w)
    (match r.2 with
     | Some e =>
         logged w ++ ["unable to create Hub client for " +:+ hubURL +:+ ": " +:+ e]
     | None => logged w
     end).

(** One turn of the loop [for hubURL, hub := range hm.hubs]: the entry is
    visited only while it is in the map. *)
Definition deleteStep (newHubURLs : gset string) (hubURL : string) (w : World C)
    : World C :=
  match hubs (manager w) !! hubURL with
  | Some hub =>
      if decide (hubURL ∈ newHubURLs) then w
      else mkWorld (setHubsMap (delete hubURL (hubs (manager w))) (manager w))
             (stopped w ++ [(hubURL, ClientStop hub)]) (logged w)
  | None => w
  end.

Definition runStep (newHubURLs : gset string) (w : World C) (s : Step) : World C :=
  match s with
  | CreateStep u => createStep u w
  | DeleteStep u => deleteStep newHubURLs u w
  end.

(** [SetHubs] under a schedule of the turns of its two loops. *)
Definition SetHubsRun (hubURLs : list string) (sched : list Step)
    (hm : HubManager C) : World C :=
  foldl (runStep (newHubURLsOf hubURLs)) (mkWorld hm [] []) sched.

(** The schedules of one call [SetHubs(hubURLs)] on [hm]: the goroutine takes
    each URL of [hubsToCreate] once, and the deleting loop visits at least
    the keys the map had at the call. *)
Definition schedule_ok (hubURLs : list string) (hm : HubManager C)
    (sched : list Step) : Prop :=
  NoDup (creates sched)
  ∧ list_to_set (creates sched) = hubsToCreateOf hm (newHubURLsOf hubURLs)
  ∧ dom (hubs hm) ⊆ list_to_set (deletes sched).

(** The schedule in which [SetHubs] returns before its goroutine starts. *)
Definition deleteThenCreate (hubURLs : list string) (hm : HubManager C)
    : list Step :=
  (DeleteStep <$> elements (dom (hubs hm)))
  ++ (CreateStep <$> elements (hubsToCreateOf hm (newHubURLsOf hubURLs))).

(** The schedule in which the goroutine finishes before the deleting loop. *)
Definition createThenDelete (hubURLs : list string) (hm : HubManager C)
    : list Step :=
  (CreateStep <$> elements (hubsToCreateOf hm (newHubURLsOf hubURLs)))
  ++ (DeleteStep <$> elements (dom (hubs hm))).

(** The goroutine alone, on any world. *)
Definition createAll (hubURLs : list string) (w : World C) : World C :=
  foldl (λ w u, createStep u w) w hubURLs.

Definition StartScanClient (hubURL scanName : string) (hm : HubManager C)
    : HubManager C * option error :=
  match hubs hm !! hubURL with
  | None => (hm, Some ("hub " +:+ hubURL +:+ " not found"))
  | Some hub =>
      (setHubsMap (<[hubURL := ClientStartScanClient scanName hub]> (hubs hm)) hm,
       None)
  end.

Definition FinishScanClient (hubURL scanName : string) (hm : HubManager C)
    : HubManager C * option error :=
  match hubs hm !! hubURL with
  | None => (hm, Some ("hub " +:+ hubURL +:+ " not found"))
  | Some hub =>
      (setHubsMap (<[hubURL := ClientFinishScanClient scanName hub]> (hubs hm)) hm,
       None)
  end.

End WithClient.

Section WithClientCalls.
Context {C : Type} `{!ClientInterface C}.

(** Two calls of [SetHubs] in a row, the second made before the goroutine
    of the first has run: [SetHubs] starts its goroutine and returns without
    waiting for it.  Each call takes its [hubsToCreate] from the map as it
    is at the call and runs its deleting loop; then the goroutine of the
    first call runs, then the goroutine of the second. *)
Definition SetHubsTwice (hubURLs1 hubURLs2 : list string) (hm : HubManager C)
    : World C :=
  let toCreate1 := elements (hubsToCreateOf hm (newHubURLsOf hubURLs1)) in
  let w1 := foldl (λ w hubURL, deleteStep (newHubURLsOf hubURLs1) hubURL w)
              (mkWorld hm [] []) (elements (dom (hubs hm))) in
  let toCreate2 :=
    elements (hubsToCreateOf (manager w1) (newHubURLsOf hubURLs2)) in
  let w2 := foldl (λ w hubURL, deleteStep (newHubURLsOf hubURLs2) hubURL w)
              w1 (elements (dom (hubs (manager w1)))) in
  createAll toCreate2 (createAll toCreate1 w2).

End WithClientCalls.

(** [<-hub.ScanResults()]: the snapshot a client answers with. *)
Class ClientScanResults (C R : Type) : Type := {
  ClientScanResultsOf : C → R
}.

Section WithScanResults.
Context {C R : Type} `{!ClientScanResults C R}.

(** [ScanResults]: one entry per hub, filled in the loop over [hm.hubs]. *)
Definition ScanResults (hm : HubManager C) : gmap string R :=
  map_fold (λ hubURL hub allScanResults,
              <[hubURL := ClientScanResultsOf hub]> allScanResults)
    ∅ (hubs hm).

End WithScanResults.

(** A client that records the calls made on it, for running the manager on
    concrete inputs. *)
Record RecClient : Type := mkRecClient {
  clientURL : string;
  clientStopped : nat;
  clientStarted : list string;
  clientFinished : list string
}.

#[export] Instance RecClient_eq_dec : EqDecision RecClient.
Proof. solve_decision. Defined.

#[export] Instance RecClientInterface : ClientInterface RecClient := {|
  NewClient _ _ hubURL _ _ _ := mkRecClient hubURL 0 [] [];
  ClientStop c :=
    mkRecClient (clientURL c) (S (clientStopped c)) (clientStarted c) (clientFinished c);
  ClientStartScanClient scanName c :=
    mkRecClient (clientURL c) (clientStopped c) (clientStarted c ++ [scanName])
      (clientFinished c);
  ClientFinishScanClient scanName c :=
    mkRecClient (clientURL c) (clientStopped c) (clientStarted c)
      (clientFinished c ++ [scanName])
|}.

Definition emptyManager : HubManager RecClient :=
  NewHubManager "sysadmin" "secret" 443 (10 * Second).

(** The manager after [SetHubs(["h1", "h2"])] on an empty one. *)
Definition manager12 : HubManager RecClient :=
  manager (SetHubsRun ["h1"; "h2"] (deleteThenCreate ["h1"; "h2"] emptyManager)
             emptyManager).

(** A schedule of [SetHubs(["h2", "h3"])] on it in which the goroutine runs
    between two turns of the deleting loop. *)
Definition interleaved : list Step :=
  [DeleteStep "h2"; CreateStep "h3"; DeleteStep "h1"; DeleteStep "h3"].

(** The recording client answers with the scans started and finished on it. *)
#[export] Instance RecClientScanResults
    : ClientScanResults RecClient (list string * list string) := {|
  ClientScanResultsOf c := (clientStarted c, clientFinished c)
|}.

End HubManager.


(** ** The coordinator of package core *)

Module Perceptor.
Import Go.

Definition checkHubForCompletedScansPause : Duration := 20 * Second.
Definition checkHubThrottle : Duration := 1 * Second.
Definition checkForStalledScansPause : Duration := 1 * Minute.
Definition stalledScanTimeout : Duration := 30 * Minute.

(** Modelled from the spec: [Image] (declared in another file) has a
    content-addressed [Sha] and a name. *)
Record Image : Type := mkImage {
  Name : string;
  Sha : string
}.

#[export] Instance Image_eq_dec : EqDecision Image.
Proof. solve_decision. Defined.

(** Modelled from the spec: the states of an [ImageInfo]. *)
Inductive ScanStatus : Type :=
| ScanStatusUnscanned
| ScanStatusRunningScanClient
| ScanStatusRunningHubScan
| ScanStatusComplete.

(** Modelled from the spec: [ImageInfo] (declared in another file):
    the image's sha, its state and the instant of its last change of state. *)
Record ImageInfo : Type := mkImageInfo {
  ImageSha : string;
  ImageScanStatus : ScanStatus;
  TimeOfLastStatusChange : Z
}.

(** Modelled from the spec: the central [Model] and [NewModel] (declared
    in another file): the model holds the concurrent-scan-client limit
    it was built with and starts without images. *)
Record Model : Type := mkModel {
  ConcurrentScanLimit : Z;
  Images : list ImageInfo;
  ImageScanQueue : list Image
}.

Definition NewModel (concurrentScanLimit : Z) : Model :=
  mkModel concurrentScanLimit [] [].

(** Modelled from the spec: [PerceptorConfig] (declared in
    another file) with the fields the spec lists for the core. *)
Record PerceptorConfig : Type := mkPerceptorConfig {
  HubHost : string;
  HubUser : string;
  HubUserPassword : string;
  ConfigConcurrentScanLimit : Z;
  ConfigTimings : Hub.Timings
}.

(** The goroutines of the coordinator: the two anonymous ones of
    [newPerceptorHelper] and the three [start...] methods. *)
Inductive Goroutine : Type :=
| CombineActions
| CloseTheCircle
| CheckingForImagesInHub
| PollingHubForCompletedScans
| CheckingForStalledScans.

#[export] Instance Goroutine_eq_dec : EqDecision Goroutine.
Proof. solve_decision. Defined.

Section WithHub.
(** [hub.FetcherInterface] over a hub-side state [F] and the hub's scan
    records [Scan], with the constructor [hub.NewFetcher]. *)
Context {F Scan : Type}.

Class FetcherInterface : Type := {
  NewFetcher : string → string → string → F + error;
  NewMockHub : F;
  FetchScanFromImage : F → Image → F * (option Scan * option error)
}.
Context `{!FetcherInterface}.

Record HubImageScan : Type := mkHubImageScan {
  ScanSha : string;
  ScanOf : option Scan
}.

(** The actions the loops of the coordinator send to the reducer.  The
    continuation of [getNextImageForHubPolling] hands the reducer's answer
    back to the loop that sent it; the answer is given to the model of the
    loop's turn. *)
Inductive action : Type :=
| requeueStalledScan (sha : string)
| hubScanResults (scan : HubImageScan)
| hubCheckResults (scan : HubImageScan)
| getNextImageForHubPolling.

(** What a loop does to the outside. *)
Inductive Event : Type :=
| Sleep (d : Duration)
| Fetch (image : Image)
| LogError
| LogInfo
| Send (a : action).

Record Perceptor : Type := mkPerceptor {
  hubClient : F;
  reducer : Model;
  inProgressScanClientScans : list ImageInfo;
  inProgressHubScans : list Image
}.

(** [newPerceptorHelper]: the perceptor and the goroutines started with
    [go], in the order of the [go] statements. *)
Definition newPerceptorHelper (client : F) : Perceptor * list Goroutine :=
  let concurrentScanLimit := 2 in
  (mkPerceptor client (NewModel concurrentScanLimit) [] [],
   [CombineActions; CloseTheCircle; CheckingForImagesInHub;
    PollingHubForCompletedScans]).

Definition NewMockedPerceptor : Perceptor * list Goroutine :=
  newPerceptorHelper NewMockHub.

Definition NewPerceptor (cfg : PerceptorConfig)
    : (Perceptor * list Goroutine) + error :=
  let baseURL := "https://" +:+ HubHost cfg in
  match NewFetcher (HubUser cfg) (HubUserPassword cfg) baseURL with
  | inr err => inr err
  | inl client => inl (newPerceptorHelper client)
  end.

(** The limit a constructed perceptor runs with. *)
Definition limitOf (r : (Perceptor * list Goroutine) + error) : option Z :=
  match r with
  | inl (p, _) => Some (ConcurrentScanLimit (reducer p))
  | inr _ => None
  end.

(** The inner loop of [startPollingHubForCompletedScans] over the slice that
    [range] took at its start. *)
Fixpoint pollImages (client : F) (images : list Image) : F * list Event :=
  match images with
  | [] => (client, [])
  | image :: rest =>
      let r := FetchScanFromImage client image in
      let body :=
        match r.2.2 with
        | Some _ => [LogError]
        | None => [LogInfo; Send (hubScanResults (mkHubImageScan (Sha image) r.2.1))]
        end in
      let k := pollImages r.1 rest in
      (k.1, Fetch image :: body ++ Sleep checkHubThrottle :: k.2)
  end.

(** One turn of the outer loop of [startPollingHubForCompletedScans]. *)
Definition pollingPass (p : Perceptor) : Perceptor * list Event :=
  let r := pollImages (hubClient p) (inProgressHubScans p) in
  (mkPerceptor r.1 (reducer p) (inProgressScanClientScans p) (inProgressHubScans p),
   Sleep checkHubForCompletedScansPause :: r.2).

(** What the hub client answers to the successive fetches of a pass. *)
Fixpoint fetchResults (client : F) (images : list Image)
    : list (Image * (option Scan * option error)) :=
  match images with
  | [] => []
  | image :: rest =>
      let r := FetchScanFromImage client image in
      (image, r.2) :: fetchResults r.1 rest
  end.

(** What the pass sends for one answer: the scan results of the image when
    the error is nil, nothing otherwise. *)
Definition submissionOf (r : Image * (option Scan * option error)) : option action :=
  match r.2.2 with
  | None => Some (hubScanResults (mkHubImageScan (Sha r.1) r.2.1))
  | Some _ => None
  end.

Definition fetched (tr : list Event) : list Image :=
  omap (λ e, match e with Fetch i => Some i | _ => None end) tr.

Definition sent (tr : list Event) : list action :=
  omap (λ e, match e with Send a => Some a | _ => None end) tr.

(** One turn of the loop of [startCheckingForStalledScans];
    [timeInCurrentScanStatus] is a method of [ImageInfo] declared in another
    file. *)
Definition stalledScansPass (timeInCurrentScanStatus : ImageInfo → Duration)
    (p : Perceptor) : list Event :=
  Sleep checkForStalledScansPause ::
  flat_map (λ imageInfo,
      if decide (stalledScanTimeout < timeInCurrentScanStatus imageInfo)
      then [Send (requeueStalledScan (ImageSha imageInfo))]
      else [])
    (inProgressScanClientScans p).

End WithHub.
Arguments FetcherInterface : clear implicits.
Arguments HubImageScan : clear implicits.
Arguments action : clear implicits.
Arguments Event : clear implicits.
Arguments Perceptor : clear implicits.

Section WithHubLoops.
Context {F Scan : Type} `{!FetcherInterface F Scan}.



(** The time a trace spends in [time.Sleep]. *)
Fixpoint slept (tr : list (Event Scan)) : Duration :=
  match tr with
  | [] => 0
  | Sleep d :: rest => d + slept rest
  | _ :: rest => slept rest
  end.



(** The number of fetch failures a trace logs. *)
Fixpoint errorsLogged (tr : list (Event Scan)) : nat :=
  match tr with
  | [] => 0%nat
  | LogError :: rest => S (errorsLogged rest)
  | _ :: rest => errorsLogged rest
  end.

End WithHubLoops.

(** A hub whose answers are scripted, for running the loops on concrete
    inputs: each fetch consumes the next answer; a hub without answers
    left fails. *)
Definition ScriptedHub : Type := list (option string * option error).

#[export] Instance ScriptedFetcher : FetcherInterface ScriptedHub string := {|
  NewFetcher user pass baseURL :=
    if decide (user = "") then inr "missing hub user" else inl [];
  NewMockHub := [];
  FetchScanFromImage h image :=
    match h with
    | [] => ([], (None, Some "no answer from the hub"))
    | r :: rest => (rest, r)
    end
|}.

(** Three images in progress at a hub that answers the first fetch with a
    scan, the second with an error and the third with no scan and no error. *)
Definition imageA : Image := mkImage "registry/a" "sha-a".
Definition imageB : Image := mkImage "registry/b" "sha-b".
Definition imageC : Image := mkImage "registry/c" "sha-c".

Definition pollingPerceptor : Perceptor ScriptedHub :=
  mkPerceptor
    [(Some "scan of a", None); (None, Some "hub timeout"); (None, None)]
    (NewModel 2) [] [imageA; imageB; imageC].

(** A configuration that asks for five concurrent scan clients. *)
Definition configLimit5 : PerceptorConfig :=
  mkPerceptorConfig "hub.example.com" "sysadmin" "secret" 5 Hub.defaultTimings.

End Perceptor.


(** * Properties *)

(** ** The hub actor (hub.go) *)

Section HubProperties.
Import Go Hub.
Context {T : Type} `{!TimerAPI T}.
Implicit Types (hub : Hub T) (err : option error) (ring : list error).

Lemma recordErrorRing_nil ring :
  (length ring ≤ 1000)%nat → recordErrorRing None ring = ring.
Proof.
  intros Hlen. unfold recordErrorRing.
  case_decide; [lia | reflexivity].
Qed.

Lemma recordErrorRing_room ring (e : error) :
  (length ring < 1000)%nat → recordErrorRing (Some e) ring = ring ++ [e].
Proof.
  intros Hlen. unfold recordErrorRing.
  case_decide as Hbig; [|reflexivity].
  rewrite length_app in Hbig. simpl in Hbig. lia.
Qed.

Lemma recordErrorRing_full ring (e : error) :
  length ring = 1000%nat →
  recordErrorRing (Some e) ring = drop 500 (ring ++ [e])
  ∧ length (recordErrorRing (Some e) ring) = 501%nat.
Proof.
  intros Hlen. unfold recordErrorRing.
  case_decide as Hbig.
  - split; [reflexivity|].
    rewrite length_drop, length_app. simpl. lia.
  - rewrite length_app in Hbig. simpl in Hbig. lia.
Qed.

Lemma recordErrorRing_bound err ring :
  (length ring ≤ 1000)%nat → (length (recordErrorRing err ring) ≤ 1000)%nat.
Proof.
  intros Hlen. unfold recordErrorRing.
  destruct err as [e|]; case_decide as Hbig;
    rewrite ?length_drop, ?length_app in *; simpl in *; lia.
Qed.

Lemma recordErrorRing_last ring (e : error) :
  (length ring ≤ 1000)%nat → last (recordErrorRing (Some e) ring) = Some e.
Proof.
  intros Hlen. unfold recordErrorRing.
  case_decide as Hbig; [|apply last_snoc].
  rewrite length_app in Hbig. simpl in Hbig.
  rewrite drop_app_le by lia. apply last_snoc.
Qed.

Lemma errors_recordError err hub :
  errors (recordError err hub) = recordErrorRing err (errors hub).
Proof. reflexivity. Qed.

Lemma recordError_calls_bound (calls : list (option error)) hub :
  (length (errors hub) ≤ 1000)%nat →
  (length (errors (foldl (λ hub e, recordError e hub) hub calls)) ≤ 1000)%nat.
Proof.
  revert hub. induction calls as [|c calls IH]; intros hub Hlen; simpl; [exact Hlen|].
  apply IH. rewrite errors_recordError. by apply recordErrorRing_bound.
Qed.

(** C4 (as amended).  On a hub made by [NewHub], after any sequence of
    [recordError] calls, one more call leaves at most 1000 entries in the
    ring; a nil error leaves the ring as it is; a non-nil error is appended
    and is the last entry afterwards; when it is appended to a ring of 1000
    entries, the oldest 500 of the 1001 are dropped and 501 remain. *)
Theorem recordError_ring_bounded (h : string) (timings : Timings)
    (calls : list (option error)) err :
  let hub := foldl (λ hub e, recordError e hub) (NewHub h timings) calls in
  let hub' := recordError err hub in
  (length (errors hub') ≤ 1000)%nat
  ∧ (err = None → errors hub' = errors hub)
  ∧ (∀ e, err = Some e →
       last (errors hub') = Some e
       ∧ ((length (errors hub) < 1000)%nat → errors hub' = errors hub ++ [e])
       ∧ (length (errors hub) = 1000%nat →
            errors hub' = drop 500 (errors hub ++ [e])
            ∧ length (errors hub') = 501%nat)).
Proof.
  intros hub hub'.
  assert (Hinv : (length (errors hub) ≤ 1000)%nat).
  { apply recordError_calls_bound. simpl. lia. }
  subst hub'. rewrite errors_recordError.
  split; [by apply recordErrorRing_bound|].
  split.
  - intros ->. by apply recordErrorRing_nil.
  - intros e ->. split; [by apply recordErrorRing_last|].
    split; [apply recordErrorRing_room | apply recordErrorRing_full].
Qed.

Lemma status_recordError err hub : status (recordError err hub) = status hub.
Proof. reflexivity. Qed.

(** C5.  A nil login result in status [Down] sets the status to [Up] and
    calls [Resume(true)] on the timers checkScansForCompletion, fetchScans
    (the fetchUnknownScans job), fetchAllScans and refreshScans, in this
    order and on nothing else; a non-nil login result in status [Up] sets the
    status to [Down] and calls [Pause()] on the same four timers.  The login
    and getMetrics timers are left as they are. *)
Theorem didLogin_transitions hub :
  (status hub = ClientStatusDown →
     let r := didLogin None hub in
     status r.1 = ClientStatusUp
     ∧ r.2 = [(CheckScansForCompletionTimer, OpResume true);
              (FetchScansTimer, OpResume true);
              (FetchAllScansTimer, OpResume true);
              (RefreshScansTimer, OpResume true)]
     ∧ checkScansForCompletionTimer r.1
         = (Resume true (checkScansForCompletionTimer hub)).1
     ∧ fetchScansTimer r.1 = (Resume true (fetchScansTimer hub)).1
     ∧ fetchAllScansTimer r.1 = (Resume true (fetchAllScansTimer hub)).1
     ∧ refreshScansTimer r.1 = (Resume true (refreshScansTimer hub)).1
     ∧ loginTimer r.1 = loginTimer hub
     ∧ getMetricsTimer r.1 = getMetricsTimer hub)
  ∧ (∀ e : error, status hub = ClientStatusUp →
     let r := didLogin (Some e) hub in
     status r.1 = ClientStatusDown
     ∧ r.2 = [(CheckScansForCompletionTimer, OpPause);
              (FetchScansTimer, OpPause);
              (FetchAllScansTimer, OpPause);
              (RefreshScansTimer, OpPause)]
     ∧ checkScansForCompletionTimer r.1
         = (Pause (checkScansForCompletionTimer hub)).1
     ∧ fetchScansTimer r.1 = (Pause (fetchScansTimer hub)).1
     ∧ fetchAllScansTimer r.1 = (Pause (fetchAllScansTimer hub)).1
     ∧ refreshScansTimer r.1 = (Pause (refreshScansTimer hub)).1
     ∧ loginTimer r.1 = loginTimer hub
     ∧ getMetricsTimer r.1 = getMetricsTimer hub).
Proof.
  split.
  - intros Hst r. subst r. unfold didLogin.
    rewrite status_recordError, Hst. cbn. split_and!; reflexivity.
  - intros e Hst r. subst r. unfold didLogin.
    rewrite status_recordError, Hst. cbn. split_and!; reflexivity.
Qed.

(** C10.  When the login result does not cross the Up/Down boundary (an
    error in status [Down], or no error in status [Up]), [didLogin] calls
    neither [Pause] nor [Resume], and the hub afterwards is the hub before
    with [recordError] applied once to the login result: status, timers and
    stop channel are the same, a nil result leaves the ring (of at most 1000
    entries) as it is and a non-nil one is appended to it. *)
Theorem didLogin_no_transition hub err :
  (is_Some err ∧ status hub = ClientStatusDown)
  ∨ (err = None ∧ status hub = ClientStatusUp) →
  let r := didLogin err hub in
  r.2 = []
  ∧ r.1 = recordError err hub
  ∧ status r.1 = status hub
  ∧ (∀ id, timerOf id r.1 = timerOf id hub)
  ∧ stop r.1 = stop hub
  ∧ host r.1 = host hub
  ∧ errors r.1 = recordErrorRing err (errors hub)
  ∧ (err = None → (length (errors hub) ≤ 1000)%nat → errors r.1 = errors hub)
  ∧ (∀ e, err = Some e → (length (errors hub) < 1000)%nat →
       errors r.1 = errors hub ++ [e]).
Proof.
  intros Hcase r.
  assert (Hr : r = (recordError err hub, [])).
  { subst r. unfold didLogin. rewrite status_recordError.
    destruct Hcase as [[[e ->] ->] | [-> ->]]; reflexivity. }
  rewrite Hr. cbn [fst snd].
  split_and!; try reflexivity.
  - intros -> Hlen. rewrite errors_recordError. by apply recordErrorRing_nil.
  - intros e -> Hlen. rewrite errors_recordError. by apply recordErrorRing_room.
Qed.

End HubProperties.

Section HubStopProperties.
Import Go Hub.
Context {T : Type} `{!TimerAPI T} `{!TimerContract T}.
Implicit Types (hub : Hub T) (err : option error) (st : Hub T * list TimerCall).

Lemma timerOf_setStop id (c : chan) hub : timerOf id (setStop c hub) = timerOf id hub.
Proof. by destruct id. Qed.

Lemma timerOf_recordTimerCall id op st id' :
  timerOf id' (recordTimerCall id op st).1
  = if decide (id' = id) then (applyTimerOp op (timerOf id st.1)).1
    else timerOf id' st.1.
Proof. unfold recordTimerCall. cbn [fst]. by destruct id, id'. Qed.

Lemma stopCh_recordTimerCall id op st id' :
  TimerStopCh (timerOf id' (recordTimerCall id op st).1)
  = TimerStopCh (timerOf id' st.1).
Proof.
  rewrite timerOf_recordTimerCall. case_decide as Hid; [subst id'|reflexivity].
  destruct op; cbn; [apply stopCh_Pause | apply stopCh_Resume].
Qed.

Lemma host_stop_recordTimerCall id op st :
  host (recordTimerCall id op st).1 = host st.1
  ∧ stop (recordTimerCall id op st).1 = stop st.1.
Proof. unfold recordTimerCall. cbn [fst]. by destruct id. Qed.

(** [didLogin] leaves every timer with the stop channel it had, and leaves
    the host and the stop channel of the hub as they are. *)
Lemma didLogin_watches err hub :
  (∀ id, TimerStopCh (timerOf id (didLogin err hub).1) = TimerStopCh (timerOf id hub))
  ∧ host (didLogin err hub).1 = host hub
  ∧ stop (didLogin err hub).1 = stop hub.
Proof.
  unfold didLogin. rewrite status_recordError.
  destruct err as [e|], (status hub);
    (split; [intros id; rewrite ?stopCh_recordTimerCall; by destruct id |]);
    repeat match goal with
    | |- context [recordTimerCall ?i ?o ?s] =>
        destruct (host_stop_recordTimerCall i o s) as [-> ->]
    end; done.
Qed.

Lemma processLogins_watches (errs : list (option error)) st :
  (∀ id, TimerStopCh (timerOf id (processLogins errs st).1)
         = TimerStopCh (timerOf id st.1))
  ∧ host (processLogins errs st).1 = host st.1
  ∧ stop (processLogins errs st).1 = stop st.1.
Proof.
  revert st. induction errs as [|err errs IH]; intros st; [done|].
  unfold processLogins in *. cbn [foldl].
  destruct (IH ((didLogin err st.1).1, st.2 ++ (didLogin err st.1).2))
    as (Hw & Hh & Hs).
  destruct (didLogin_watches err st.1) as (Hw' & Hh' & Hs').
  cbn [fst] in *.
  split_and!; [intros id; by rewrite Hw, Hw' | by rewrite Hh | by rewrite Hs].
Qed.

Lemma NewHub_watches (h : string) (timings : Timings) id :
  TimerStopCh (timerOf id (NewHub h timings)) = StopCh h.
Proof.
  destruct id; cbn; (apply stopCh_NewTimer || apply stopCh_NewRunningTimer).
Qed.

Lemma timerMayFire_closed id hub :
  TimerStopCh (timerOf id hub) = StopCh (host hub) →
  timerMayFire id (setStop ChanClosed hub) = false.
Proof.
  intros Hw. unfold timerMayFire, chanState.
  rewrite timerOf_setStop, Hw.
  rewrite decide_True by reflexivity. apply mayFire_closed.
Qed.

(** C9.  [Stop] closes [hub.stop] without looking at it.  On a hub whose
    stop channel is open the first call returns, with the channel closed and
    nothing else changed; the action loop, which could not take its
    [<-hub.stop] case before, can take it now, and must when no action is
    waiting; every timer that was handed [hub.stop] finds it closed and,
    by the contract of [util.Timer], runs its task no more.  A second call
    on the same hub panics with Go's close-of-closed-channel error.  Every
    hub made by [NewHub], after any login results, is such a hub: its stop
    channel is open and all six timers were handed it. *)
Theorem Stop_twice_panics hub :
  (stop hub = ChanOpen →
   ∃ hub1,
     Stop hub = Returns hub1
     ∧ hub1 = setStop ChanClosed hub
     ∧ stop hub1 = ChanClosed
     ∧ (∀ pending, LoopReturn ∉ actorSelect hub pending)
     ∧ (∀ pending, LoopReturn ∈ actorSelect hub1 pending)
     ∧ actorSelect hub1 false = [LoopReturn]
     ∧ (∀ id, TimerStopCh (timerOf id hub) = StopCh (host hub) →
              timerMayFire id hub1 = false)
     ∧ Stop hub1 = Panics "close of closed channel"
     ∧ StopTwice hub = Panics "close of closed channel")
  ∧ (∀ (h : string) (timings : Timings) (errs : list (option error)),
       let made := (processLogins errs (NewHub h timings, [])).1 in
       stop made = ChanOpen
       ∧ (∀ id, TimerStopCh (timerOf id made) = StopCh (host made))
       ∧ ∃ made1,
           Stop made = Returns made1
           ∧ (∀ id, timerMayFire id made1 = false)
           ∧ Stop made1 = Panics "close of closed channel").
Proof.
  split.
  - intros Hopen. exists (setStop ChanClosed hub).
    unfold StopTwice, Stop, actorSelect. rewrite Hopen. cbn.
    split_and!; try reflexivity.
    + intros [] Hin; cbn in Hin.
      * apply list_elem_of_singleton in Hin. discriminate.
      * by apply elem_of_nil in Hin.
    + intros pending. destruct pending; set_solver.
    + intros id. apply timerMayFire_closed.
  - intros h timings errs made. subst made.
    destruct (processLogins_watches errs (NewHub h timings, [])) as (Hw & Hh & Hs).
    cbn [fst] in *.
    set (made := (processLogins errs (NewHub h timings, [])).1) in *.
    assert (Hopen : stop made = ChanOpen) by (by rewrite Hs).
    assert (Hwatch : ∀ id, TimerStopCh (timerOf id made) = StopCh (host made)).
    { intros id. rewrite Hw, Hh. apply NewHub_watches. }
    split_and!; [exact Hopen | exact Hwatch |].
    exists (setStop ChanClosed made). unfold Stop. rewrite Hopen. cbn.
    split_and!; [reflexivity | | reflexivity].
    intros id. by apply timerMayFire_closed.
Qed.

End HubStopProperties.


(** *** The hub actor on concrete inputs *)

Section HubExamples.
Import Go Hub.

Lemma fullHub_length : length (errors fullHub) = 1000%nat.
Proof. vm_compute. reflexivity. Qed.

(** C4, as stated, fails: with 1000 entries in the ring, recording one more
    error leaves 501 entries, so the most recent 1000 of the 1001 recorded
    errors are not all retained. *)
Lemma recordError_ring_loses_recent :
  let hub' := recordError (Some "new") fullHub in
  length (errors fullHub) = 1000%nat
  ∧ length (errors hub') = 501%nat
  ∧ ¬ (drop 1 (errors fullHub ++ ["new"]) `suffix_of` errors hub').
Proof.
  intros hub'.
  assert (Hlen' : length (errors hub') = 501%nat) by (vm_compute; reflexivity).
  split_and!; [apply fullHub_length | exact Hlen' |].
  intros [k Hk]. apply (f_equal length) in Hk.
  rewrite Hlen', length_app, length_drop, length_app, fullHub_length in Hk.
  simpl in Hk. lia.
Qed.

Lemma recordError_ring_bounded_witness :
  let hub' := recordError (Some "new") fullHub in
  (length (errors hub') ≤ 1000)%nat
  ∧ last (errors hub') = Some "new"
  ∧ errors hub' = drop 500 (errors fullHub ++ ["new"])
  ∧ length (errors hub') = 501%nat.
Proof.
  intros hub'.
  destruct (recordError_ring_bounded "h1" defaultTimings
              (replicate 1000 (Some "old")) (Some "new")) as (Hle & _ & Hsome).
  destruct (Hsome "new" eq_refl) as (Hlast & _ & Hfull).
  destruct (Hfull fullHub_length) as [Hdrop Hlen].
  split_and!; [exact Hle | exact Hlast | exact Hdrop | exact Hlen].
Defined.

Lemma didLogin_transitions_witness :
  status freshHub = ClientStatusDown
  ∧ status loggedInHub = ClientStatusUp
  ∧ timerName (fetchScansTimer loggedInHub) = "fetchUnknownScans-h1"
  ∧ timerRunning (fetchScansTimer loggedInHub) = true
  ∧ timerFires (fetchScansTimer loggedInHub) = 1%nat
  ∧ status (didLogin (Some "login failed") loggedInHub).1 = ClientStatusDown
  ∧ timerRunning (fetchScansTimer (didLogin (Some "login failed") loggedInHub).1)
    = false.
Proof.
  destruct (didLogin_transitions freshHub) as [Hup _].
  destruct (Hup eq_refl) as (Hst & _ & _ & Hfetch & _).
  destruct (didLogin_transitions loggedInHub) as [_ Hdown].
  destruct (Hdown "login failed" Hst) as (Hst' & _ & _ & Hfetch' & _).
  fold loggedInHub in Hfetch.
  split_and!; [reflexivity | exact Hst | | | | exact Hst' | ].
  - rewrite Hfetch. reflexivity.
  - rewrite Hfetch. reflexivity.
  - rewrite Hfetch. reflexivity.
  - transitivity (timerRunning (Pause (fetchScansTimer loggedInHub)).1);
      [exact (f_equal timerRunning Hfetch') | rewrite Hfetch; reflexivity].
Defined.

Lemma didLogin_no_transition_witness :
  status freshHub = ClientStatusDown
  ∧ (didLogin (Some "login failed") freshHub).2 = []
  ∧ status (didLogin (Some "login failed") freshHub).1 = ClientStatusDown
  ∧ errors (didLogin (Some "login failed") freshHub).1 = ["login failed"]
  ∧ (didLogin None loggedInHub).2 = []
  ∧ (didLogin None loggedInHub).1 = loggedInHub.
Proof.
  assert (H1 : is_Some (Some "login failed" : option error)
               ∧ status freshHub = ClientStatusDown) by (split; [by eexists | reflexivity]).
  destruct (didLogin_no_transition freshHub (Some "login failed") (or_introl H1))
    as (Hcalls & _ & Hst & _ & _ & _ & _ & _ & Happ).
  assert (H2 : (None : option error) = None ∧ status loggedInHub = ClientStatusUp)
    by (split; reflexivity).
  destruct (didLogin_no_transition loggedInHub None (or_intror H2))
    as (Hcalls' & Hhub & _).
  split_and!; [reflexivity | exact Hcalls | exact Hst | | exact Hcalls' | ].
  - rewrite (Happ "login failed" eq_refl); [reflexivity | simpl; lia].
  - rewrite Hhub. reflexivity.
Defined.

Lemma Stop_twice_panics_witness :
  stop freshHub = ChanOpen
  ∧ timerMayFire LoginTimer freshHub = true
  ∧ Stop freshHub = Returns (setStop ChanClosed freshHub)
  ∧ (∀ id, timerMayFire id (setStop ChanClosed freshHub) = false)
  ∧ StopTwice freshHub = Panics "close of closed channel".
Proof.
  destruct (Stop_twice_panics freshHub) as [Hany Hmade].
  destruct (Hany eq_refl) as (hub1 & Hret & -> & _ & _ & _ & _ & Htimers & _ & Htwice).
  destruct (Hmade "h1" defaultTimings []) as (_ & Hwatch & _).
  split_and!; [reflexivity | reflexivity | exact Hret | | exact Htwice].
  intros id. apply Htimers, Hwatch.
Defined.

End HubExamples.

(** ** The hub manager (hubmanager.go) *)

Section HubManagerProperties.
Import Go HubManager.
Context {C : Type} `{!ClientInterface C}.
Implicit Types (hm : HubManager C) (w : World C) (N : gset string).

Lemma hubs_createStep v w u :
  hubs (manager (createStep v w)) !! u
  = match hubs (manager w) !! u with
    | Some c => Some c
    | None => if decide (u = v) then Some (newClientFor (manager w) v) else None
    end.
Proof.
  unfold createStep, create.
  destruct (hubs (manager w) !! v) as [c|] eqn:Hv; cbn.
  - destruct (hubs (manager w) !! u) as [c'|] eqn:Hu; [reflexivity|].
    case_decide; [congruence | reflexivity].
  - destruct (decide (u = v)) as [->|Hne].
    + rewrite lookup_insert_eq, Hv. reflexivity.
    + rewrite lookup_insert_ne by congruence.
      by destruct (hubs (manager w) !! u).
Qed.

Lemma hubs_deleteStep N v w u :
  hubs (manager (deleteStep N v w)) !! u
  = if decide (u = v ∧ v ∉ N) then None else hubs (manager w) !! u.
Proof.
  unfold deleteStep.
  destruct (hubs (manager w) !! v) as [c|] eqn:Hv.
  - destruct (decide (v ∈ N)) as [Hin|Hout]; cbn.
    + case_decide as Hd; [by destruct Hd | reflexivity].
    + case_decide as Hd.
      * destruct Hd as [-> _]. apply lookup_delete_eq.
      * apply lookup_delete_ne. intros ->. by apply Hd.
  - case_decide as Hd; [|reflexivity].
    destruct Hd as [-> _]. by rewrite Hv.
Qed.

Lemma newClientFor_runStep N w s u :
  newClientFor (manager (runStep N w s)) u = newClientFor (manager w) u.
Proof.
  destruct s as [v|v]; cbn; unfold createStep, create, deleteStep.
  - by destruct (hubs (manager w) !! v).
  - destruct (hubs (manager w) !! v); [|reflexivity]. by case_decide.
Qed.

Lemma creates_cons_create v sched : creates (CreateStep v :: sched) = v :: creates sched.
Proof. reflexivity. Qed.

Lemma creates_cons_delete v sched : creates (DeleteStep v :: sched) = creates sched.
Proof. reflexivity. Qed.

Lemma deletes_cons_delete v sched : deletes (DeleteStep v :: sched) = v :: deletes sched.
Proof. reflexivity. Qed.

Lemma deletes_cons_create v sched : deletes (CreateStep v :: sched) = deletes sched.
Proof. reflexivity. Qed.

(** A URL of the new set is never deleted: it keeps the client it has, or
    gets one at its creation step. *)
Lemma run_lookup_kept N sched w u :
  u ∈ N →
  hubs (manager (foldl (runStep N) w sched)) !! u
  = match hubs (manager w) !! u with
    | Some c => Some c
    | None => if decide (u ∈ creates sched)
              then Some (newClientFor (manager w) u) else None
    end.
Proof.
  intros Hu. revert w.
  induction sched as [|[v|v] sched IH]; intros w; cbn [foldl].
  - by destruct (hubs (manager w) !! u).
  - rewrite IH, creates_cons_create.
    rewrite (newClientFor_runStep N w (CreateStep v)).
    cbn [runStep]. rewrite hubs_createStep.
    destruct (hubs (manager w) !! u) as [c|]; [reflexivity|].
    destruct (decide (u = v)) as [->|Hne].
    + rewrite decide_True by apply list_elem_of_here. reflexivity.
    + destruct (decide (u ∈ creates sched)) as [Hin|Hout].
      * rewrite decide_True by (by apply list_elem_of_further). reflexivity.
      * rewrite decide_False; [reflexivity|].
        intros [?|?]%elem_of_cons; congruence.
  - rewrite IH, creates_cons_delete.
    rewrite (newClientFor_runStep N w (DeleteStep v)).
    cbn [runStep]. rewrite hubs_deleteStep.
    rewrite decide_False; [reflexivity|].
    intros [-> Hout]. by apply Hout.
Qed.

(** A URL outside the new set is never created: it is gone once the
    deleting loop has visited it. *)
Lemma run_lookup_dropped N sched w u :
  u ∉ N → (∀ v, v ∈ creates sched → v ∈ N) →
  hubs (manager (foldl (runStep N) w sched)) !! u
  = if decide (u ∈ deletes sched) then None else hubs (manager w) !! u.
Proof.
  intros Hu. revert w.
  induction sched as [|[v|v] sched IH]; intros w Hcr; cbn [foldl].
  - rewrite decide_False; [reflexivity | apply not_elem_of_nil].
  - rewrite IH, deletes_cons_create.
    2:{ intros v' Hv'. apply Hcr. rewrite creates_cons_create.
        by apply list_elem_of_further. }
    cbn [runStep]. rewrite hubs_createStep.
    assert (u ≠ v) as Hne.
    { intros ->. apply Hu, Hcr. rewrite creates_cons_create.
      apply list_elem_of_here. }
    rewrite (decide_False (P := u = v)) by exact Hne.
    by destruct (hubs (manager w) !! u).
  - rewrite IH, deletes_cons_delete by exact Hcr.
    cbn [runStep]. rewrite hubs_deleteStep.
    destruct (decide (u = v)) as [->|Hne].
    + rewrite (decide_True (P := v ∈ v :: deletes sched)) by apply list_elem_of_here.
      rewrite (decide_True (P := v = v ∧ v ∉ N)) by (by split).
      by case_decide.
    + rewrite (decide_False (P := u = v ∧ v ∉ N)) by (by intros [? _]).
      destruct (decide (u ∈ deletes sched)) as [Hin|Hout].
      * rewrite decide_True by (by apply list_elem_of_further). reflexivity.
      * rewrite decide_False; [reflexivity|].
        intros [?|?]%elem_of_cons; congruence.
Qed.

Lemma stopped_deleteStep N v w :
  stopped (deleteStep N v w)
  = match hubs (manager w) !! v with
    | Some c => if decide (v ∈ N) then stopped w else stopped w ++ [(v, ClientStop c)]
    | None => stopped w
    end.
Proof.
  unfold deleteStep. destruct (hubs (manager w) !! v); [|reflexivity].
  by case_decide.
Qed.

(** [Stop()] is called on exactly the clients the deleting loop finds under
    a URL outside the new set. *)
Lemma run_stopped N sched w u (c : C) :
  (∀ v, v ∈ creates sched → v ∈ N) →
  (u, c) ∈ stopped (foldl (runStep N) w sched)
  ↔ (u, c) ∈ stopped w
    ∨ ((u ∉ N) ∧ u ∈ deletes sched
       ∧ ∃ c0, hubs (manager w) !! u = Some c0 ∧ c = ClientStop c0).
Proof.
  revert w. induction sched as [|[v|v] sched IH]; intros w Hcr; cbn [foldl].
  - split; [by left|]. intros [?|(_ & Hin & _)]; [done|].
    by apply elem_of_nil in Hin.
  - assert (Hv : v ∈ N).
    { apply Hcr. rewrite creates_cons_create. apply list_elem_of_here. }
    rewrite IH.
    2:{ intros v' Hv'. apply Hcr. rewrite creates_cons_create.
        by apply list_elem_of_further. }
    cbn [runStep]. rewrite deletes_cons_create.
    change (stopped (createStep v w)) with (stopped w).
    assert (Hsame : u ∉ N →
              hubs (manager (createStep v w)) !! u = hubs (manager w) !! u).
    { intros Hu. rewrite hubs_createStep.
      destruct (hubs (manager w) !! u); [reflexivity|].
      case_decide; [congruence | reflexivity]. }
    split; (intros [?|(Hu & Hin & c0 & Hlk & ->)]; [by left|right]);
      (split_and!; [done | done |]); exists c0; split; try done.
    + by rewrite <- Hsame.
    + by rewrite Hsame.
  - rewrite IH by exact Hcr. cbn [runStep].
    rewrite deletes_cons_delete, stopped_deleteStep.
    assert (Hlk : ∀ x, hubs (manager (deleteStep N v w)) !! x
                       = if decide (x = v ∧ v ∉ N) then None
                         else hubs (manager w) !! x)
      by (intros x; apply hubs_deleteStep).
    rewrite Hlk. clear Hlk IH.
    destruct (hubs (manager w) !! v) as [cv|] eqn:Hv;
      [destruct (decide (v ∈ N)) as [HvN|HvN]|].
    + rewrite decide_False by (by intros [_ ?]).
      rewrite elem_of_cons. naive_solver.
    + rewrite elem_of_app, list_elem_of_singleton, elem_of_cons.
      destruct (decide (u = v)) as [->|Hne].
      * rewrite decide_True by done. rewrite Hv. naive_solver.
      * rewrite decide_False by (by intros [? _]). naive_solver.
    + rewrite elem_of_cons. destruct (decide (u = v)) as [->|Hne].
      * rewrite Hv. case_decide; naive_solver.
      * rewrite decide_False by (by intros [? _]). naive_solver.
Qed.

(** The goroutine logs nothing when it creates each URL once and none of
    them is a key of the map. *)
Lemma run_logged N sched w :
  NoDup (creates sched) →
  (∀ v, v ∈ creates sched → hubs (manager w) !! v = None) →
  logged (foldl (runStep N) w sched) = logged w.
Proof.
  revert w. induction sched as [|[v|v] sched IH]; intros w Hnd Hfree; cbn [foldl].
  - reflexivity.
  - rewrite creates_cons_create in Hnd, Hfree.
    apply NoDup_cons in Hnd as [Hv Hnd].
    rewrite IH; [| exact Hnd |].
    + cbn [runStep]. unfold createStep, create.
      rewrite (Hfree v) by apply list_elem_of_here. reflexivity.
    + intros v' Hv'. cbn [runStep]. rewrite hubs_createStep.
      rewrite (Hfree v') by (by apply list_elem_of_further).
      rewrite decide_False; [reflexivity | by intros ->].
  - rewrite creates_cons_delete in Hnd, Hfree.
    rewrite IH; [| exact Hnd |].
    + cbn [runStep]. unfold deleteStep.
      destruct (hubs (manager w) !! v); [|reflexivity]. by case_decide.
    + intros v' Hv'. cbn [runStep]. rewrite hubs_deleteStep.
      rewrite (Hfree v' Hv'). by case_decide.
Qed.

Lemma createAll_keeps (us : list string) w u :
  is_Some (hubs (manager w) !! u) →
  is_Some (hubs (manager (createAll us w)) !! u).
Proof.
  revert w. induction us as [|v us IH]; intros w Hu; [exact Hu|].
  apply IH. cbn beta. rewrite hubs_createStep. destruct Hu as [c ->]. by eexists.
Qed.

(** The goroutine goes through all its URLs, whatever [create] returns. *)
Lemma createAll_creates (us : list string) w u :
  u ∈ us → is_Some (hubs (manager (createAll us w)) !! u).
Proof.
  revert w. induction us as [|v us IH]; intros w Hu.
  - by apply elem_of_nil in Hu.
  - apply elem_of_cons in Hu as [->|Hu]; [|by apply IH].
    apply (createAll_keeps us (createStep v w)). rewrite hubs_createStep.
    destruct (hubs (manager w) !! v); [by eexists|].
    rewrite decide_True by reflexivity. by eexists.
Qed.

Lemma createStep_exists v w (c : C) :
  hubs (manager w) !! v = Some c →
  createStep v w
  = mkWorld (manager w) (stopped w)
      (logged w ++ ["unable to create Hub client for " +:+ v +:+ ": "
                    +:+ "cannot create hub " +:+ v +:+ ": already exists"]).
Proof. intros Hv. unfold createStep, create. rewrite Hv. reflexivity. Qed.

Lemma creates_app (s1 s2 : list Step) : creates (s1 ++ s2) = creates s1 ++ creates s2.
Proof. apply omap_app. Qed.

Lemma deletes_app (s1 s2 : list Step) : deletes (s1 ++ s2) = deletes s1 ++ deletes s2.
Proof. apply omap_app. Qed.

Lemma creates_fmap_create (us : list string) : creates (CreateStep <$> us) = us.
Proof. induction us as [|u us IH]; [reflexivity|]. cbn. by rewrite <- IH at 2. Qed.

Lemma creates_fmap_delete (us : list string) : creates (DeleteStep <$> us) = [].
Proof. induction us as [|u us IH]; [reflexivity | exact IH]. Qed.

Lemma deletes_fmap_delete (us : list string) : deletes (DeleteStep <$> us) = us.
Proof. induction us as [|u us IH]; [reflexivity|]. cbn. by rewrite <- IH at 2. Qed.

Lemma deletes_fmap_create (us : list string) : deletes (CreateStep <$> us) = [].
Proof. induction us as [|u us IH]; [reflexivity | exact IH]. Qed.

Lemma deleteThenCreate_ok (hubURLs : list string) hm :
  schedule_ok hubURLs hm (deleteThenCreate hubURLs hm).
Proof.
  unfold schedule_ok, deleteThenCreate.
  rewrite creates_app, deletes_app, creates_fmap_delete, creates_fmap_create,
    deletes_fmap_delete, deletes_fmap_create, app_nil_l, app_nil_r.
  split_and!.
  - apply NoDup_elements.
  - apply list_to_set_elements_L.
  - by rewrite list_to_set_elements_L.
Qed.

Lemma createThenDelete_ok (hubURLs : list string) hm :
  schedule_ok hubURLs hm (createThenDelete hubURLs hm).
Proof.
  unfold schedule_ok, createThenDelete.
  rewrite creates_app, deletes_app, creates_fmap_delete, creates_fmap_create,
    deletes_fmap_delete, deletes_fmap_create, app_nil_l, app_nil_r.
  split_and!.
  - apply NoDup_elements.
  - apply list_to_set_elements_L.
  - by rewrite list_to_set_elements_L.
Qed.

(** C6 (the code as it is).  [SetHubs] does not wait for its goroutine.
    With [SetHubs(["h1", "h2"])] and then [SetHubs(["h2", "h3"])] on an
    empty manager, the second call made before the goroutine of the first
    has run, the second call finds an empty map: it stops nothing and sets
    out to create h2 and h3.  When both goroutines are done the map has the
    keys h1, h2 and h3, not the URLs of the last call; the client of h1 is
    live and was never stopped, and the second creation of h2 was logged as
    a failure. *)
Theorem SetHubs_twice_leaves_stale_hub :
  let w := SetHubsTwice ["h1"; "h2"] ["h2"; "h3"] emptyManager in
  dom (hubs (manager w)) = {["h1"; "h2"; "h3"]}
  ∧ dom (hubs (manager w)) ≠ list_to_set ["h2"; "h3"]
  ∧ hubs (manager w) !! "h1" = Some (mkRecClient "h1" 0 [] [])
  ∧ stopped w = []
  ∧ logged w
    = ["unable to create Hub client for h2: cannot create hub h2: already exists"].
Proof.
  intros w.
  assert (Hdom : dom (hubs (manager w)) = {["h1"; "h2"; "h3"]})
    by (vm_compute; reflexivity).
  split_and!.
  - exact Hdom.
  - rewrite Hdom. intros Heq.
    assert (Hin : "h1" ∈ ({["h1"; "h2"; "h3"]} : gset string)) by set_solver.
    rewrite Heq in Hin. set_solver.
  - vm_compute. reflexivity.
  - vm_compute. reflexivity.
  - vm_compute. reflexivity.
Qed.

(** X18.  Take [SetHubs(hubURLs)] on a manager [hm] whose map no one else
    touches meanwhile (no goroutine of an earlier call is still to run),
    under any schedule of the turns of its two loops, each turn taken as
    atomic.  When both loops are done: the keys of the
    map are exactly the given URLs; [Stop()] was called on exactly the
    clients that were in the map under a URL not given, and these are gone
    from the map; every given URL that was not a key has the client
    [create] makes for it; the clients of the given URLs that were keys are
    untouched; nothing was logged.  The goroutine is best-effort: on any
    map it goes through all its URLs, and a URL that is a key already only
    adds a log line.  The two sequential orders of the loops are such
    schedules. *)
Theorem SetHubs_reconciles (hubURLs : list string) hm (sched : list Step) :
  schedule_ok hubURLs hm sched →
  let w := SetHubsRun hubURLs sched hm in
  dom (hubs (manager w)) = list_to_set hubURLs
  ∧ (∀ u c, (u, c) ∈ stopped w
            ↔ (u ∉ hubURLs) ∧ ∃ c0, hubs hm !! u = Some c0 ∧ c = ClientStop c0)
  ∧ (∀ u, u ∉ hubURLs → hubs (manager w) !! u = None)
  ∧ (∀ u, u ∈ hubURLs → hubs hm !! u = None →
          hubs (manager w) !! u = Some (newClientFor hm u))
  ∧ (∀ u c0, u ∈ hubURLs → hubs hm !! u = Some c0 →
             hubs (manager w) !! u = Some c0)
  ∧ logged w = []
  ∧ (∀ (w0 : World C) (us : list string) u,
       u ∈ us → is_Some (hubs (manager (createAll us w0)) !! u))
  ∧ (∀ (w0 : World C) u c0, hubs (manager w0) !! u = Some c0 →
       manager (createStep u w0) = manager w0
       ∧ logged (createStep u w0)
         = logged w0 ++ ["unable to create Hub client for " +:+ u +:+ ": "
                         +:+ "cannot create hub " +:+ u +:+ ": already exists"])
  ∧ schedule_ok hubURLs hm (deleteThenCreate hubURLs hm)
  ∧ schedule_ok hubURLs hm (createThenDelete hubURLs hm).
Proof.
  intros (Hnd & Hcr & Hdel) w. subst w. unfold SetHubsRun.
  set (N := newHubURLsOf hubURLs) in *.
  assert (HN : ∀ u, u ∈ N ↔ u ∈ hubURLs)
    by (intros u; unfold N, newHubURLsOf; apply elem_of_list_to_set).
  assert (Hcreates : ∀ v, v ∈ creates sched ↔ v ∈ N ∧ hubs hm !! v = None).
  { intros v. rewrite <- (elem_of_list_to_set (C := gset string)), Hcr.
    unfold hubsToCreateOf. rewrite elem_of_filter. tauto. }
  assert (HcrN : ∀ v, v ∈ creates sched → v ∈ N) by (intros v; rewrite Hcreates; tauto).
  assert (Hdeletes : ∀ u c0, hubs hm !! u = Some c0 → u ∈ deletes sched).
  { intros u c0 Hu. rewrite <- (elem_of_list_to_set (C := gset string)).
    apply Hdel, elem_of_dom. by eexists. }
  assert (Hout : ∀ u, u ∉ hubURLs →
            hubs (manager (foldl (runStep N) (mkWorld hm [] []) sched)) !! u = None).
  { intros u Hu. rewrite run_lookup_dropped; [| by rewrite HN | exact HcrN].
    cbn. case_decide as Hd; [reflexivity|].
    destruct (hubs hm !! u) as [c0|] eqn:Hlk; [|reflexivity].
    exfalso. by apply Hd, (Hdeletes u c0). }
  assert (Hnew : ∀ u, u ∈ hubURLs → hubs hm !! u = None →
            hubs (manager (foldl (runStep N) (mkWorld hm [] []) sched)) !! u
            = Some (newClientFor hm u)).
  { intros u Hu Hlk. rewrite run_lookup_kept by (by rewrite HN).
    cbn. rewrite Hlk. rewrite decide_True; [reflexivity|].
    apply Hcreates. split; [by rewrite HN | exact Hlk]. }
  assert (Hold : ∀ u c0, u ∈ hubURLs → hubs hm !! u = Some c0 →
            hubs (manager (foldl (runStep N) (mkWorld hm [] []) sched)) !! u
            = Some c0).
  { intros u c0 Hu Hlk. rewrite run_lookup_kept by (by rewrite HN).
    cbn. by rewrite Hlk. }
  split_and!.
  - apply set_eq. intros u. rewrite elem_of_dom, elem_of_list_to_set.
    destruct (decide (u ∈ hubURLs)) as [Hin|Hnin].
    + split; [done|]. intros _.
      destruct (hubs hm !! u) as [c0|] eqn:Hlk.
      * rewrite (Hold u c0) by done. by eexists.
      * rewrite Hnew by done. by eexists.
    + rewrite Hout by done. split; [by intros [? ?] | done].
  - intros u c. rewrite run_stopped by exact HcrN. cbn. rewrite HN. split.
    + intros [Hnil | (Hu & _ & Hc0)]; [by apply elem_of_nil in Hnil | done].
    + intros (Hu & c0 & Hlk & ->). right.
      split_and!; [done | by apply (Hdeletes u c0) | by exists c0].
  - exact Hout.
  - exact Hnew.
  - exact Hold.
  - rewrite run_logged; [reflexivity | exact Hnd |].
    intros v Hv. cbn. by apply Hcreates in Hv as [_ ?].
  - intros w0 us u. apply createAll_creates.
  - intros w0 u c0 Hlk. by rewrite (createStep_exists u w0 c0).
  - apply deleteThenCreate_ok.
  - apply createThenDelete_ok.
Qed.

(** C8.  [StartScanClient] and [FinishScanClient] of the manager return a
    non-nil error exactly when the URL is not a key of the hub map; then the
    error is the hub-not-found one and the manager is as before.  When the
    URL is a key, the call is made on the client stored under it, the other
    clients are as before, and nil is returned. *)
Theorem HubManager_routes (hubURL scanName : string) hm :
  ((StartScanClient hubURL scanName hm).2 ≠ None ↔ hubs hm !! hubURL = None)
  ∧ ((FinishScanClient hubURL scanName hm).2 ≠ None ↔ hubs hm !! hubURL = None)
  ∧ (hubs hm !! hubURL = None →
       StartScanClient hubURL scanName hm
       = (hm, Some ("hub " +:+ hubURL +:+ " not found"))
       ∧ FinishScanClient hubURL scanName hm
         = (hm, Some ("hub " +:+ hubURL +:+ " not found")))
  ∧ (∀ hub, hubs hm !! hubURL = Some hub →
       (StartScanClient hubURL scanName hm).2 = None
       ∧ hubs (StartScanClient hubURL scanName hm).1
         = <[hubURL := ClientStartScanClient scanName hub]> (hubs hm)
       ∧ (FinishScanClient hubURL scanName hm).2 = None
       ∧ hubs (FinishScanClient hubURL scanName hm).1
         = <[hubURL := ClientFinishScanClient scanName hub]> (hubs hm)).
Proof.
  unfold StartScanClient, FinishScanClient.
  destruct (hubs hm !! hubURL) as [hub|] eqn:Hlk; cbn.
  - split_and!.
    + split; [by intros [] | discriminate].
    + split; [by intros [] | discriminate].
    + discriminate.
    + intros hub' [= <-]. done.
  - split_and!.
    + split; [done | discriminate].
    + split; [done | discriminate].
    + done.
    + discriminate.
Qed.

End HubManagerProperties.

(** *** The hub manager on concrete inputs *)

Section HubManagerExamples.
Import Go HubManager.

Lemma interleaved_ok : schedule_ok ["h2"; "h3"] manager12 interleaved.
Proof.
  unfold schedule_ok. split_and!.
  - apply NoDup_singleton.
  - vm_compute. reflexivity.
  - assert (dom (hubs manager12) = {["h1"; "h2"]}) as ->
      by (vm_compute; reflexivity).
    cbn. set_solver.
Qed.

Lemma SetHubs_reconciles_witness :
  let w := SetHubsRun ["h2"; "h3"] interleaved manager12 in
  schedule_ok ["h2"; "h3"] manager12 interleaved
  ∧ dom (hubs manager12) = {["h1"; "h2"]}
  ∧ dom (hubs (manager w)) = {["h2"; "h3"]}
  ∧ stopped w = [("h1", mkRecClient "h1" 1 [] [])]
  ∧ hubs (manager w) !! "h3" = Some (mkRecClient "h3" 0 [] [])
  ∧ logged w = [].
Proof.
  intros w. subst w.
  destruct (SetHubs_reconciles ["h2"; "h3"] manager12 interleaved interleaved_ok)
    as (Hdom & _ & _ & Hnew & _ & Hlog & _).
  split_and!.
  - exact interleaved_ok.
  - vm_compute. reflexivity.
  - rewrite Hdom. vm_compute. reflexivity.
  - vm_compute. reflexivity.
  - rewrite Hnew; [vm_compute; reflexivity
                  | apply list_elem_of_further, list_elem_of_here
                  | vm_compute; reflexivity].
  - exact Hlog.
Defined.

Lemma HubManager_routes_witness :
  hubs manager12 !! "h9" = None
  ∧ StartScanClient "h9" "scan-a" manager12 = (manager12, Some "hub h9 not found")
  ∧ FinishScanClient "h9" "scan-a" manager12 = (manager12, Some "hub h9 not found")
  ∧ (StartScanClient "h1" "scan-a" manager12).2 = None
  ∧ hubs (StartScanClient "h1" "scan-a" manager12).1 !! "h1"
    = Some (mkRecClient "h1" 0 ["scan-a"] [])
  ∧ (FinishScanClient "h1" "scan-a" manager12).2 = None
  ∧ hubs (FinishScanClient "h1" "scan-a" manager12).1 !! "h1"
    = Some (mkRecClient "h1" 0 [] ["scan-a"]).
Proof.
  assert (H9 : hubs manager12 !! "h9" = None) by (vm_compute; reflexivity).
  assert (H1 : hubs manager12 !! "h1" = Some (mkRecClient "h1" 0 [] []))
    by (vm_compute; reflexivity).
  destruct (HubManager_routes "h9" "scan-a" manager12) as (_ & _ & Hnone & _).
  destruct (Hnone H9) as [Hs Hf].
  destruct (HubManager_routes "h1" "scan-a" manager12) as (_ & _ & _ & Hsome).
  destruct (Hsome _ H1) as (Hs1 & Hs2 & Hf1 & Hf2).
  split_and!; [exact H9 | rewrite Hs; reflexivity | rewrite Hf; reflexivity
              | exact Hs1 | | exact Hf1 |].
  - rewrite Hs2. apply lookup_insert_eq.
  - rewrite Hf2. apply lookup_insert_eq.
Defined.

End HubManagerExamples.

(** ** The coordinator *)

Section PerceptorProperties.
Import Go Perceptor.
Context {F Scan : Type} `{!FetcherInterface F Scan}.
Implicit Types (client : F) (images : list Image) (p : Perceptor F).

Lemma fetched_pollImages client images :
  fetched (pollImages client images).2 = images.
Proof.
  revert client. induction images as [|image rest IH]; intros client; [reflexivity|].
  cbn [pollImages snd].
  destruct (FetchScanFromImage client image) as [client' [scan err]].
  specialize (IH client'). unfold fetched in *.
  destruct err; cbn; f_equal; exact IH.
Qed.

Lemma sent_pollImages client images :
  sent (pollImages client images).2
  = omap submissionOf (fetchResults client images).
Proof.
  revert client. induction images as [|image rest IH]; intros client; [reflexivity|].
  cbn [pollImages fetchResults snd].
  destruct (FetchScanFromImage client image) as [client' [scan err]].
  specialize (IH client'). unfold sent in *.
  destruct err; cbn; [|f_equal]; exact IH.
Qed.

(** The answer to the i-th fetch is the one the hub client gives in the state
    the earlier fetches of the pass left it in. *)
Lemma fetchResults_lookup client images (i : nat) image :
  images !! i = Some image →
  fetchResults client images !! i
  = Some (image, (FetchScanFromImage (pollImages client (take i images)).1 image).2).
Proof.
  revert client i. induction images as [|image0 rest IH]; intros client i Hi.
  - by rewrite lookup_nil in Hi.
  - destruct i as [|i]; cbn in Hi.
    + injection Hi as ->. reflexivity.
    + cbn [fetchResults take pollImages fst].
      exact (IH (FetchScanFromImage client image0).1 i Hi).
Qed.

(** C7.  In one pass of the completion-polling loop, [FetchScanFromImage] is
    called for every image of [inProgressHubScans], in order, whatever the
    earlier fetches returned; for each of them a [hubScanResults] action with
    the image's sha and the fetched scan is sent exactly when the fetch
    returned a nil error, and nothing is sent for it otherwise; the actions
    sent in the pass are these, in order. *)
Theorem pollingPass_submits p :
  let tr := (pollingPass p).2 in
  let answers := fetchResults (hubClient p) (inProgressHubScans p) in
  fetched tr = inProgressHubScans p
  ∧ sent tr = omap submissionOf answers
  ∧ (∀ (i : nat) image, inProgressHubScans p !! i = Some image →
       ∃ scan err,
         (FetchScanFromImage
            (pollImages (hubClient p) (take i (inProgressHubScans p))).1 image).2
         = (scan, err)
         ∧ answers !! i = Some (image, (scan, err))
         ∧ (submissionOf (image, (scan, err))
            = Some (hubScanResults (mkHubImageScan (Sha image) scan))
            ↔ err = None)
         ∧ (submissionOf (image, (scan, err)) = None ↔ err ≠ None)).
Proof.
  intros tr answers. subst tr answers. cbn [pollingPass snd].
  split_and!.
  - unfold fetched. cbn [omap]. apply fetched_pollImages.
  - unfold sent. cbn [omap]. apply sent_pollImages.
  - intros i image Hi.
    destruct (FetchScanFromImage
                (pollImages (hubClient p) (take i (inProgressHubScans p))).1 image).2
      as [scan err] eqn:Hans.
    exists scan, err. split_and!; [reflexivity | | |].
    + rewrite (fetchResults_lookup _ _ i image Hi). by rewrite Hans.
    + unfold submissionOf. cbn. destruct err; split; (done || discriminate).
    + unfold submissionOf. cbn. destruct err; split; (done || discriminate).
Qed.

(** C3 (as amended).  [NewPerceptor] reads [HubHost], [HubUser] and
    [HubUserPassword] from the configuration and nothing else: whenever it
    returns a perceptor, the model of its reducer is [NewModel 2], and a
    configuration with another limit and other timings gives the same
    result. *)
Theorem NewPerceptor_limit_fixed (cfg : PerceptorConfig) :
  NewPerceptor cfg
  = match NewFetcher (HubUser cfg) (HubUserPassword cfg) ("https://" +:+ HubHost cfg) with
    | inl client =>
        inl (mkPerceptor client (NewModel 2) [] [],
             [CombineActions; CloseTheCircle; CheckingForImagesInHub;
              PollingHubForCompletedScans])
    | inr err => inr err
    end
  ∧ (limitOf (NewPerceptor cfg) = Some 2 ∨ limitOf (NewPerceptor cfg) = None)
  ∧ (∀ (limit : Z) (timings : Hub.Timings),
       NewPerceptor (mkPerceptorConfig (HubHost cfg) (HubUser cfg)
                       (HubUserPassword cfg) limit timings)
       = NewPerceptor cfg).
Proof.
  unfold NewPerceptor. cbn.
  split_and!; [reflexivity | | reflexivity].
  destruct (NewFetcher _ _ _); [by left | by right].
Qed.

Lemma sent_stalledScansPass (timeIn : ImageInfo → Duration) p :
  sent (stalledScansPass (Scan := Scan) timeIn p)
  = (λ imageInfo, requeueStalledScan (ImageSha imageInfo))
    <$> filter (λ imageInfo, stalledScanTimeout < timeIn imageInfo)
          (inProgressScanClientScans p).
Proof.
  unfold stalledScansPass, sent. cbn [omap].
  induction (inProgressScanClientScans p) as [|imageInfo rest IH]; [reflexivity|].
  cbn [flat_map]. rewrite filter_cons.
  case_decide; cbn; [f_equal|]; exact IH.
Qed.

(** C2 (the code as it is).  The loop [startCheckingForStalledScans] would
    send [requeueStalledScan] for exactly the in-progress scan-client scans
    that are over the timeout of thirty minutes, after a sleep of one minute,
    but [newPerceptorHelper] starts four goroutines and this loop is not one
    of them. *)
Theorem stalled_scan_detector_not_started client (timeIn : ImageInfo → Duration) :
  (newPerceptorHelper client).2
  = [CombineActions; CloseTheCircle; CheckingForImagesInHub;
     PollingHubForCompletedScans]
  ∧ (CheckingForStalledScans ∉ (newPerceptorHelper client).2)
  ∧ PollingHubForCompletedScans ∈ (newPerceptorHelper client).2
  ∧ (∀ p, head (stalledScansPass (Scan := Scan) timeIn p)
          = Some (Sleep checkForStalledScansPause)
          ∧ sent (stalledScansPass (Scan := Scan) timeIn p)
            = (λ imageInfo, requeueStalledScan (ImageSha imageInfo))
              <$> filter (λ imageInfo, 30 * Minute < timeIn imageInfo)
                    (inProgressScanClientScans p)).
Proof.
  split_and!.
  - reflexivity.
  - cbn. intros Hin. repeat (apply elem_of_cons in Hin as [Hin|Hin]; [discriminate|]).
    by apply elem_of_nil in Hin.
  - cbn. do 3 apply list_elem_of_further. apply list_elem_of_here.
  - intros p. split; [reflexivity | apply sent_stalledScansPass].
Qed.

End PerceptorProperties.

(** *** The coordinator on concrete inputs *)

Section PerceptorExamples.
Import Go Perceptor.

Lemma pollingPass_submits_witness :
  fetched (pollingPass pollingPerceptor).2 = [imageA; imageB; imageC]
  ∧ sent (pollingPass pollingPerceptor).2
    = [hubScanResults (mkHubImageScan "sha-a" (Some "scan of a"));
       hubScanResults (mkHubImageScan "sha-c" None)]
  ∧ fetchResults (hubClient pollingPerceptor) (inProgressHubScans pollingPerceptor)
      !! 1%nat
    = Some (imageB, (None, Some "hub timeout")).
Proof.
  destruct (pollingPass_submits pollingPerceptor) as (Hfetched & Hsent & Hevery).
  destruct (Hevery 1%nat imageB eq_refl) as (scan & err & Hans & Hlk & _).
  split_and!.
  - exact Hfetched.
  - rewrite Hsent. reflexivity.
  - etrans; [exact Hlk|]. rewrite <- Hans. reflexivity.
Defined.

(** C3, as stated, fails: a configuration whose limit is 5 gives a perceptor
    whose model has the limit 2. *)
Lemma NewPerceptor_ignores_configured_limit :
  ConfigConcurrentScanLimit configLimit5 = 5
  ∧ limitOf (NewPerceptor (F := ScriptedHub) (Scan := string) configLimit5) = Some 2
  ∧ limitOf (NewPerceptor (F := ScriptedHub) (Scan := string) configLimit5)
    ≠ Some (ConfigConcurrentScanLimit configLimit5).
Proof. split_and!; [reflexivity | reflexivity | discriminate]. Qed.

Lemma NewPerceptor_limit_fixed_witness :
  limitOf (NewPerceptor (F := ScriptedHub) (Scan := string) configLimit5) = Some 2
  ∧ NewPerceptor (F := ScriptedHub) (Scan := string)
      (mkPerceptorConfig "hub.example.com" "sysadmin" "secret" 7 Hub.defaultTimings)
    = NewPerceptor configLimit5.
Proof.
  destruct (NewPerceptor_limit_fixed (F := ScriptedHub) (Scan := string) configLimit5)
    as (_ & [Hlim|Hnone] & Hsame).
  - split; [exact Hlim | exact (Hsame 7 Hub.defaultTimings)].
  - discriminate Hnone.
Defined.

End PerceptorExamples.

(** ** Further properties of the hub actor *)

Section HubLoginRuns.
Import Go Hub.
Context {T : Type} `{!TimerAPI T}.
Implicit Types (hub : Hub T) (err : option error) (st : Hub T * list TimerCall).

Lemma errors_setTimer id (t : T) hub : errors (setTimer id t hub) = errors hub.
Proof. by destruct id. Qed.

Lemma status_setTimer id (t : T) hub : status (setTimer id t hub) = status hub.
Proof. by destruct id. Qed.

Lemma recordTimerCall_bound id op st :
  (length (errors st.1) ≤ 1000)%nat →
  (length (errors (recordTimerCall id op st).1) ≤ 1000)%nat.
Proof.
  intros Hlen. unfold recordTimerCall. cbn [fst].
  rewrite errors_recordError. apply recordErrorRing_bound.
  by rewrite errors_setTimer.
Qed.

Lemma didLogin_bound err hub :
  (length (errors hub) ≤ 1000)%nat →
  (length (errors (didLogin err hub).1) ≤ 1000)%nat.
Proof.
  intros Hlen.
  assert (H1 : (length (errors (recordError err hub)) ≤ 1000)%nat)
    by (rewrite errors_recordError; by apply recordErrorRing_bound).
  unfold didLogin. rewrite status_recordError.
  destruct err as [e|], (status hub); try exact H1;
    do 4 apply recordTimerCall_bound; exact H1.
Qed.

Lemma processLogins_snoc (errs : list (option error)) err st :
  processLogins (errs ++ [err]) st
  = ((didLogin err (processLogins errs st).1).1,
     (processLogins errs st).2 ++ (didLogin err (processLogins errs st).1).2).
Proof. unfold processLogins. by rewrite foldl_snoc. Qed.

(** X1.  The ring stays within 1000 entries through any sequence of login
    results, whatever errors the timers return to [Pause] and [Resume]. *)
Theorem processLogins_ring_bounded (errs : list (option error)) hub
    (calls : list TimerCall) :
  (length (errors hub) ≤ 1000)%nat →
  (length (errors (processLogins errs (hub, calls)).1) ≤ 1000)%nat.
Proof.
  intros Hlen. induction errs as [|err errs IH] using rev_ind; [exact Hlen|].
  rewrite processLogins_snoc. cbn [fst]. by apply didLogin_bound.
Qed.

Lemma status_recordTimerCall id op st :
  status (recordTimerCall id op st).1 = status st.1.
Proof.
  unfold recordTimerCall. cbn [fst].
  by rewrite status_recordError, status_setTimer.
Qed.

Lemma status_didLogin err hub :
  status (didLogin err hub).1
  = match err with None => ClientStatusUp | Some _ => ClientStatusDown end.
Proof.
  unfold didLogin. rewrite status_recordError.
  destruct err as [e|], (status hub) eqn:Hst;
    rewrite ?status_recordTimerCall; cbn [fst];
    rewrite ?status_recordError; done.
Qed.

(** X2.  After a login result is processed the status is [Up] exactly when the
    result was nil, whatever the status was; after a sequence of results
    the status is the one of the last result. *)
Theorem status_follows_last_login (errs : list (option error)) err hub
    (calls : list TimerCall) :
  (status (didLogin err hub).1 = ClientStatusUp ↔ err = None)
  ∧ (status (didLogin err hub).1 = ClientStatusDown ↔ is_Some err)
  ∧ (status (processLogins (errs ++ [err]) (hub, calls)).1 = ClientStatusUp
     ↔ err = None).
Proof.
  rewrite processLogins_snoc. cbn [fst]. rewrite !status_didLogin.
  destruct err as [e|]; split_and!; split; try done; try discriminate;
    try (by intros [? ?]); by eexists.
Qed.

Lemma didLogin_calls err hub :
  (didLogin err hub).2
  = match err, status hub with
    | Some _, ClientStatusUp => (λ id, (id, OpPause)) <$> dataTimers
    | None, ClientStatusDown => (λ id, (id, OpResume true)) <$> dataTimers
    | _, _ => []
    end.
Proof.
  unfold didLogin. rewrite status_recordError.
  by destruct err as [e|], (status hub).
Qed.

Lemma opsOn_app id (c1 c2 : list TimerCall) :
  opsOn id (c1 ++ c2) = opsOn id c1 ++ opsOn id c2.
Proof. unfold opsOn. by rewrite filter_app, fmap_app. Qed.

Lemma opsOn_block id op :
  opsOn id ((λ id', (id', op)) <$> dataTimers)
  = if decide (id ∈ dataTimers) then [op] else [].
Proof. destruct id; reflexivity. Qed.

Lemma lookup_snoc_alternate (ops : list TimerOp) (op : TimerOp) :
  (∀ (i : nat) o, ops !! i = Some o →
     o = if Nat.even i then OpResume true else OpPause) →
  op = (if Nat.even (length ops) then OpResume true else OpPause) →
  ∀ (i : nat) o, (ops ++ [op]) !! i = Some o →
    o = if Nat.even i then OpResume true else OpPause.
Proof.
  intros Hops Hop i o Hi.
  apply lookup_app_Some in Hi as [Hi | [Hge Hi]]; [by apply Hops|].
  apply list_lookup_singleton_Some in Hi as [Hi <-].
  replace i with (length ops) by lia. exact Hop.
Qed.

(** X3.  Starting from a hub that is down, over any sequence of login results
    the calls on each of the four data timers alternate: the first is
    [Resume(true)], the next [Pause()], and so on; the hub is up exactly
    when their number is odd.  No call is ever made on the login and
    getMetrics timers. *)
Theorem timer_calls_alternate (errs : list (option error)) hub (id : TimerId) :
  status hub = ClientStatusDown →
  let r := processLogins errs (hub, []) in
  (id ∈ dataTimers →
     (∀ (i : nat) op, opsOn id r.2 !! i = Some op →
        op = if Nat.even i then OpResume true else OpPause)
     ∧ (status r.1 = ClientStatusUp ↔ Nat.odd (length (opsOn id r.2)) = true))
  ∧ (id ∉ dataTimers → opsOn id r.2 = []).
Proof.
  intros Hdown r. subst r.
  induction errs as [|err errs IH] using rev_ind.
  - cbn. split; [intros _; split|done].
    + intros i op Hi. by rewrite lookup_nil in Hi.
    + rewrite Hdown. split; discriminate.
  - rewrite processLogins_snoc. cbn [fst snd].
    destruct IH as [IHdata IHother].
    rewrite opsOn_app, didLogin_calls, status_didLogin.
    set (st := processLogins errs (hub, [])) in *.
    split.
    + intros Hid. destruct (IHdata Hid) as [Halt Hodd].
      destruct err as [e|], (status st.1) eqn:Hst; rewrite ?opsOn_block;
        rewrite ?decide_True by exact Hid; rewrite ?app_nil_r.
      * (* failure while up: one more Pause *)
        assert (Ho : Nat.odd (length (opsOn id st.2)) = true) by (by apply Hodd).
        split.
        -- apply lookup_snoc_alternate; [exact Halt|].
           rewrite <- Nat.negb_odd, Ho. reflexivity.
        -- rewrite length_app. cbn [length].
           rewrite Nat.add_1_r, Nat.odd_succ, <- Nat.negb_odd, Ho.
           split; discriminate.
      * (* failure while down: nothing *)
        split; [exact Halt | exact Hodd].
      * (* success while up: nothing *)
        split; [exact Halt | exact Hodd].
      * (* success while down: one more Resume *)
        assert (Ho : Nat.odd (length (opsOn id st.2)) = false).
        { destruct (Nat.odd (length (opsOn id st.2))) eqn:Ho; [|reflexivity].
          by destruct Hodd as [_ Hodd]; specialize (Hodd eq_refl). }
        split.
        -- apply lookup_snoc_alternate; [exact Halt|].
           rewrite <- Nat.negb_odd, Ho. reflexivity.
        -- rewrite length_app. cbn [length].
           rewrite Nat.add_1_r, Nat.odd_succ, <- Nat.negb_odd, Ho.
           split; done.
    + intros Hid. rewrite (IHother Hid).
      destruct err as [e|], (status st.1); rewrite ?opsOn_block;
        rewrite ?decide_False by exact Hid; reflexivity.
Qed.

(** X4.  [didLogin] never touches the host, the stop channel, the login timer or
    the getMetrics timer: a hub that is down keeps trying to log in. *)
Theorem didLogin_keeps_login_timer (errs : list (option error)) hub
    (calls : list TimerCall) :
  let hub' := (processLogins errs (hub, calls)).1 in
  loginTimer hub' = loginTimer hub
  ∧ getMetricsTimer hub' = getMetricsTimer hub
  ∧ stop hub' = stop hub
  ∧ host hub' = host hub.
Proof.
  intros hub'. subst hub'.
  induction errs as [|err errs IH] using rev_ind; [done|].
  rewrite processLogins_snoc. cbn [fst].
  set (h := (processLogins errs (hub, calls)).1) in *.
  destruct IH as (<- & <- & <- & <-).
  unfold didLogin. rewrite status_recordError.
  by destruct err as [e|], (status h).
Qed.

End HubLoginRuns.

Section HubLoginExamples.
Import Go Hub.

Lemma fullHubUp_length : (length (errors fullHubUp) ≤ 1000)%nat.
Proof. change (errors fullHubUp) with (errors fullHub). by rewrite fullHub_length. Qed.

Lemma processLogins_ring_bounded_witness :
  (length (errors fullHubUp) ≤ 1000)%nat
  ∧ (length (errors (processLogins [Some "login failed"] (fullHubUp, [])).1)
     ≤ 1000)%nat
  ∧ length (errors (processLogins [Some "login failed"] (fullHubUp, [])).1)
    = 505%nat.
Proof.
  split_and!.
  - exact fullHubUp_length.
  - exact (processLogins_ring_bounded [Some "login failed"] fullHubUp []
             fullHubUp_length).
  - vm_compute. reflexivity.
Defined.

Lemma timer_calls_alternate_witness :
  status freshHub = ClientStatusDown
  ∧ opsOn FetchScansTimer
      (processLogins [None; None; Some "refused"; Some "refused"; None]
         (freshHub, [])).2
    = [OpResume true; OpPause; OpResume true]
  ∧ opsOn FetchScansTimer
      (processLogins [None; None; Some "refused"; Some "refused"; None]
         (freshHub, [])).2 !! 1%nat
    = Some (if Nat.even 1 then OpResume true else OpPause)
  ∧ opsOn LoginTimer
      (processLogins [None; None; Some "refused"; Some "refused"; None]
         (freshHub, [])).2
    = [].
Proof.
  pose proof (timer_calls_alternate
                [None; None; Some "refused"; Some "refused"; None]
                freshHub FetchScansTimer eq_refl) as [Hdata _].
  pose proof (timer_calls_alternate
                [None; None; Some "refused"; Some "refused"; None]
                freshHub LoginTimer eq_refl) as [_ Hother].
  assert (Hin : FetchScansTimer ∈ dataTimers)
    by (apply list_elem_of_further, list_elem_of_here).
  assert (Hout : LoginTimer ∉ dataTimers).
  { intros H. repeat (apply elem_of_cons in H as [H|H]; [discriminate|]).
    by apply elem_of_nil in H. }
  destruct (Hdata Hin) as [Halt _].
  split_and!.
  - reflexivity.
  - vm_compute. reflexivity.
  - rewrite (Halt 1%nat OpPause); [reflexivity | vm_compute; reflexivity].
  - exact (Hother Hout).
Defined.

(** X5.  The name of a timer of a hub identifies its job and the hub's host: the
    six names [NewHub] builds are different from one another, and a name is
    not shared between two hosts. *)
Theorem timer_names_identify (h h' : string) (t t' : Timings) (id id' : TimerId) :
  timerName (timerOf id (NewHub h t)) = timerName (timerOf id' (NewHub h' t')) →
  id = id' ∧ h = h'.
Proof.
  destruct id, id'; cbn; intros H; by simplify_eq.
Qed.

Lemma timer_names_identify_witness :
  timerName (timerOf FetchScansTimer (NewHub "h1" defaultTimings))
  = "fetchUnknownScans-h1"
  ∧ FetchScansTimer = FetchScansTimer ∧ "h1" = "h1".
Proof.
  split; [reflexivity|].
  exact (timer_names_identify "h1" "h1" defaultTimings defaultTimings
           FetchScansTimer FetchScansTimer eq_refl).
Defined.

End HubLoginExamples.

(** ** Further properties of the hub manager *)

Section HubManagerMore.
Import Go HubManager.
Context {C : Type} `{!ClientInterface C}.
Implicit Types (hm : HubManager C) (w : World C) (N : gset string).




(** X7.  [create] never overwrites: it returns an error exactly when the URL is a
    key already, and then changes nothing; otherwise it adds the new client
    under the URL.  Either way the URL is a key afterwards, every client
    that was in the map is still there, and a second [create] of the same
    URL fails. *)
Theorem create_never_overwrites (hubURL : string) hm :
  ((create hubURL hm).2 = None ↔ hubs hm !! hubURL = None)
  ∧ (is_Some (hubs hm !! hubURL) → (create hubURL hm).1 = hm)
  ∧ (hubs hm !! hubURL = None →
       hubs (create hubURL hm).1 !! hubURL = Some (newClientFor hm hubURL))
  ∧ is_Some (hubs (create hubURL hm).1 !! hubURL)
  ∧ (∀ u c, hubs hm !! u = Some c → hubs (create hubURL hm).1 !! u = Some c)
  ∧ (∀ u, u ≠ hubURL → hubs (create hubURL hm).1 !! u = hubs hm !! u)
  ∧ create hubURL (create hubURL hm).1
    = ((create hubURL hm).1,
       Some ("cannot create hub " +:+ hubURL +:+ ": already exists")).
Proof.
  assert (Hsome : ∀ c0, hubs hm !! hubURL = Some c0 →
            create hubURL hm
            = (hm, Some ("cannot create hub " +:+ hubURL +:+ ": already exists")))
    by (intros c0 H; unfold create; by rewrite H).
  assert (Hnone : hubs hm !! hubURL = None →
            create hubURL hm
            = (setHubsMap (<[hubURL := newClientFor hm hubURL]> (hubs hm)) hm, None))
    by (intros H; unfold create; by rewrite H).
  destruct (hubs hm !! hubURL) as [c0|] eqn:Hlk.
  - rewrite (Hsome c0 eq_refl). cbn [fst snd]. split_and!.
    + split; discriminate.
    + done.
    + discriminate.
    + rewrite Hlk. by eexists.
    + done.
    + done.
    + unfold create. by rewrite Hlk.
  - rewrite (Hnone eq_refl). cbn [fst snd hubs setHubsMap]. split_and!.
    + done.
    + by intros [? ?].
    + intros _. apply lookup_insert_eq.
    + rewrite lookup_insert_eq. by eexists.
    + intros u c Hu. rewrite lookup_insert_ne; [done | congruence].
    + intros u Hu. by rewrite lookup_insert_ne.
    + unfold create, setHubsMap. cbn. by rewrite lookup_insert_eq.
Qed.

Lemma SetHubsRun_creates_in (hubURLs : list string) hm (sched : list Step) :
  schedule_ok hubURLs hm sched →
  ∀ v, v ∈ creates sched ↔ v ∈ newHubURLsOf hubURLs ∧ hubs hm !! v = None.
Proof.
  intros (_ & Hcr & _) v.
  rewrite <- (elem_of_list_to_set (C := gset string)), Hcr.
  unfold hubsToCreateOf. rewrite elem_of_filter. tauto.
Qed.

Lemma SetHubsRun_deletes_in (hubURLs : list string) hm (sched : list Step) u (c : C) :
  schedule_ok hubURLs hm sched → hubs hm !! u = Some c → u ∈ deletes sched.
Proof.
  intros (_ & _ & Hdel) Hu.
  rewrite <- (elem_of_list_to_set (C := gset string)).
  apply Hdel, elem_of_dom. by eexists.
Qed.

(** Once both loops of [SetHubs] are done, a URL is a key of the map exactly
    when it was given. *)
Lemma SetHubsRun_lookup (hubURLs : list string) hm (sched : list Step) u :
  schedule_ok hubURLs hm sched →
  is_Some (hubs (manager (SetHubsRun hubURLs sched hm)) !! u) ↔ u ∈ hubURLs.
Proof.
  intros Hok. unfold SetHubsRun.
  pose proof (SetHubsRun_creates_in hubURLs hm sched Hok) as Hcreates.
  assert (HN : u ∈ newHubURLsOf hubURLs ↔ u ∈ hubURLs)
    by apply elem_of_list_to_set.
  destruct (decide (u ∈ hubURLs)) as [Hin|Hnin].
  - split; [done|]. intros _.
    rewrite run_lookup_kept by (by apply HN). cbn.
    destruct (hubs hm !! u) as [c|] eqn:Hlk; [by eexists|].
    rewrite decide_True; [by eexists|]. apply Hcreates. by rewrite HN.
  - rewrite run_lookup_dropped.
    + cbn. case_decide as Hd; [split; [by intros [? ?] | done]|].
      destruct (hubs hm !! u) as [c|] eqn:Hlk.
      * exfalso. apply Hd. by apply (SetHubsRun_deletes_in hubURLs hm sched u c).
      * split; [by intros [? ?] | done].
    + by rewrite HN.
    + intros v Hv. by apply Hcreates in Hv as [? _].
Qed.

(** X8.  Routing after [SetHubs]: once the goroutine of the call has gone
    through its URLs, [StartScanClient] and [FinishScanClient] succeed for
    every URL that was given, also when creation turns left over from
    earlier calls run in between; when the turns of the call are the only
    ones on the map, they succeed for no other URL. *)
Theorem routing_after_SetHubs (hubURLs : list string) hm (sched : list Step)
    (u scanName : string) :
  hubsToCreateOf hm (newHubURLsOf hubURLs) ⊆ list_to_set (creates sched) →
  let hm' := manager (SetHubsRun hubURLs sched hm) in
  (u ∈ hubURLs →
     (StartScanClient u scanName hm').2 = None
     ∧ (FinishScanClient u scanName hm').2 = None)
  ∧ (schedule_ok hubURLs hm sched →
       ((StartScanClient u scanName hm').2 = None ↔ u ∈ hubURLs)
       ∧ ((FinishScanClient u scanName hm').2 = None ↔ u ∈ hubURLs)).
Proof.
  intros Hown hm'. subst hm'. split.
  - intros Hu.
    assert (Hsome : is_Some (hubs (manager (SetHubsRun hubURLs sched hm)) !! u)).
    { unfold SetHubsRun.
      rewrite run_lookup_kept by (by apply elem_of_list_to_set). cbn.
      destruct (hubs hm !! u) as [c|] eqn:Hlk; [by eexists|].
      rewrite decide_True; [by eexists|].
      apply (elem_of_list_to_set (C := gset string)), Hown.
      apply elem_of_filter. split; [exact Hlk | by apply elem_of_list_to_set]. }
    unfold StartScanClient, FinishScanClient.
    destruct Hsome as [c ->]. done.
  - intros Hok.
    rewrite <- (SetHubsRun_lookup hubURLs hm sched u Hok).
    unfold StartScanClient, FinishScanClient.
    destruct (hubs (manager (SetHubsRun hubURLs sched hm)) !! u); cbn.
    + split; (split; [by eexists | done]).
    + split; (split; [discriminate | by intros [? ?]]).
Qed.




(** X11.  [StartScanClient] and [FinishScanClient] keep the set of hubs and the
    manager's settings, and leave the clients of all other URLs alone. *)
Theorem scan_client_calls_frame (hubURL scanName : string) hm :
  dom (hubs (StartScanClient hubURL scanName hm).1) = dom (hubs hm)
  ∧ dom (hubs (FinishScanClient hubURL scanName hm).1) = dom (hubs hm)
  ∧ (∀ u, u ≠ hubURL →
       hubs (StartScanClient hubURL scanName hm).1 !! u = hubs hm !! u
       ∧ hubs (FinishScanClient hubURL scanName hm).1 !! u = hubs hm !! u)
  ∧ (∀ u, newClientFor (StartScanClient hubURL scanName hm).1 u = newClientFor hm u
          ∧ newClientFor (FinishScanClient hubURL scanName hm).1 u
            = newClientFor hm u).
Proof.
  unfold StartScanClient, FinishScanClient.
  destruct (hubs hm !! hubURL) as [c|] eqn:Hlk; cbn; [|done].
  split_and!.
  - apply dom_insert_lookup_L. by eexists.
  - apply dom_insert_lookup_L. by eexists.
  - intros u Hu. by rewrite !lookup_insert_ne.
  - done.
Qed.

(** X12.  Calls for different URLs commute: the manager ends up the same whichever
    of a [StartScanClient] and a [FinishScanClient] comes first, and so do
    the two errors. *)
Theorem scan_client_calls_commute (u1 s1 u2 s2 : string) hm :
  u1 ≠ u2 →
  (FinishScanClient u2 s2 (StartScanClient u1 s1 hm).1).1
  = (StartScanClient u1 s1 (FinishScanClient u2 s2 hm).1).1
  ∧ (StartScanClient u1 s1 (FinishScanClient u2 s2 hm).1).2
    = (StartScanClient u1 s1 hm).2
  ∧ (FinishScanClient u2 s2 (StartScanClient u1 s1 hm).1).2
    = (FinishScanClient u2 s2 hm).2.
Proof.
  intros Hne. unfold StartScanClient, FinishScanClient.
  destruct (hubs hm !! u1) as [c1|] eqn:H1, (hubs hm !! u2) as [c2|] eqn:H2;
    cbn; rewrite ?lookup_insert_ne by congruence; rewrite ?H1, ?H2; cbn;
    try done.
  split_and!; try done. unfold setHubsMap. cbn. f_equal.
  by apply insert_insert_ne.
Qed.

End HubManagerMore.

Section HubManagerScanResults.
Import Go HubManager.
Context {C R : Type} `{!ClientScanResults C R}.

(** X13.  [ScanResults] has one entry per hub of the map, the snapshot of that
    hub's client, and no entry under any other URL; on a manager without
    hubs it is empty. *)
Theorem ScanResults_per_hub (hm : HubManager C) :
  ScanResults hm = (ClientScanResultsOf <$> hubs hm : gmap string R)
  ∧ dom (ScanResults (R := R) hm) = dom (hubs hm)
  ∧ (∀ u, ScanResults (R := R) hm !! u = ClientScanResultsOf <$> hubs hm !! u)
  ∧ (hubs hm = ∅ → ScanResults (R := R) hm = ∅).
Proof.
  assert (Heq : ScanResults hm = (ClientScanResultsOf <$> hubs hm : gmap string R)).
  { unfold ScanResults.
    apply (map_fold_weak_ind
             (λ (r : gmap string R) (m : gmap string C),
                r = ClientScanResultsOf <$> m)).
    - by rewrite fmap_empty.
    - intros i x m r _ ->. by rewrite fmap_insert. }
  split_and!.
  - exact Heq.
  - rewrite Heq. apply dom_fmap_L.
  - intros u. rewrite Heq. apply lookup_fmap.
  - intros Hempty. rewrite Heq, Hempty. apply fmap_empty.
Qed.

End HubManagerScanResults.

Section HubManagerMoreExamples.
Import Go HubManager.

Lemma stale_creates_cover :
  hubsToCreateOf emptyManager (newHubURLsOf ["h2"; "h3"])
  ⊆ list_to_set (creates (CreateStep <$> ["h1"; "h2"; "h2"; "h3"])).
Proof.
  intros x [_ Hx]%elem_of_filter. unfold newHubURLsOf in Hx.
  rewrite creates_fmap_create. set_solver.
Qed.

Lemma routing_after_SetHubs_witness :
  hubsToCreateOf emptyManager (newHubURLsOf ["h2"; "h3"])
  ⊆ list_to_set (creates (CreateStep <$> ["h1"; "h2"; "h2"; "h3"]))
  ∧ (StartScanClient "h3" "scan-a"
       (manager (SetHubsRun ["h2"; "h3"] (CreateStep <$> ["h1"; "h2"; "h2"; "h3"])
                   emptyManager))).2 = None
  ∧ (FinishScanClient "h1" "scan-a"
       (manager (SetHubsRun ["h2"; "h3"] interleaved manager12))).2 ≠ None.
Proof.
  destruct (routing_after_SetHubs ["h2"; "h3"] emptyManager
              (CreateStep <$> ["h1"; "h2"; "h2"; "h3"]) "h3" "scan-a"
              stale_creates_cover) as [Hin _].
  assert (Hown : hubsToCreateOf manager12 (newHubURLsOf ["h2"; "h3"])
                 ⊆ list_to_set (creates interleaved)).
  { destruct interleaved_ok as (_ & <- & _). done. }
  destruct (routing_after_SetHubs ["h2"; "h3"] manager12 interleaved "h1" "scan-a"
              Hown) as [_ Hiff].
  destruct (Hiff interleaved_ok) as [_ Hfinish].
  split_and!.
  - exact stale_creates_cover.
  - apply Hin. apply list_elem_of_further, list_elem_of_here.
  - intros Hnone. apply Hfinish in Hnone.
    repeat (apply elem_of_cons in Hnone as [Hnone|Hnone]; [discriminate|]).
    by apply elem_of_nil in Hnone.
Defined.




Lemma scan_client_calls_commute_witness :
  "h1" ≠ "h2"
  ∧ (FinishScanClient "h2" "scan-b" (StartScanClient "h1" "scan-a" manager12).1).1
    = (StartScanClient "h1" "scan-a" (FinishScanClient "h2" "scan-b" manager12).1).1.
Proof.
  assert (Hne : "h1" ≠ "h2") by discriminate.
  split; [exact Hne|].
  by destruct (scan_client_calls_commute "h1" "scan-a" "h2" "scan-b" manager12 Hne).
Defined.

End HubManagerMoreExamples.

(** ** Further properties of the coordinator loops *)

Section PerceptorLoops.
Import Go Perceptor.
Context {F Scan : Type} `{!FetcherInterface F Scan}.
Implicit Types (client : F) (images : list Image) (p : Perceptor F)
  (tr : list (Event Scan)).


Lemma sent_app tr1 tr2 : sent (tr1 ++ tr2) = sent tr1 ++ sent tr2.
Proof. apply omap_app. Qed.

Lemma sent_cons_sleep (d : Duration) tr : sent (Sleep d :: tr) = sent tr.
Proof. reflexivity. Qed.

Lemma slept_app tr1 tr2 : slept (tr1 ++ tr2) = slept tr1 + slept tr2.
Proof.
  induction tr1 as [|e tr1 IH]; [reflexivity|].
  destruct e; cbn [app slept]; lia.
Qed.

Lemma errorsLogged_app tr1 tr2 :
  errorsLogged (tr1 ++ tr2) = (errorsLogged tr1 + errorsLogged tr2)%nat.
Proof.
  induction tr1 as [|e tr1 IH]; [reflexivity|].
  destruct e; cbn [app errorsLogged]; lia.
Qed.

(** X14.  A pass over a list of images is the pass over its first part followed
    by the pass over the rest, run on the hub client as the first part left
    it. *)
Theorem pollImages_app client (images1 images2 : list Image) :
  pollImages client (images1 ++ images2)
  = ((pollImages (pollImages client images1).1 images2).1,
     (pollImages client images1).2
     ++ (pollImages (pollImages client images1).1 images2).2).
Proof.
  revert client. induction images1 as [|image rest IH]; intros client.
  - cbn. by destruct (pollImages client images2).
  - cbn [app pollImages fst snd]. rewrite IH. cbn [fst snd].
    f_equal. cbn [app]. f_equal. by rewrite <- app_assoc.
Qed.

Lemma pollImages_counts client images :
  (errorsLogged (pollImages client images).2
   + length (sent (pollImages client images).2))%nat = length images
  ∧ slept (pollImages client images).2
    = Z.of_nat (length images) * checkHubThrottle.
Proof.
  revert client. induction images as [|image rest IH]; intros client.
  - split; reflexivity.
  - cbn [pollImages snd].
    destruct (FetchScanFromImage client image) as [client' [scan err]].
    destruct (IH client') as [IHn IHs]. cbn [fst snd].
    set (tr := (pollImages client' rest).2) in *.
    destruct err as [e|].
    + change (Fetch image :: [LogError] ++ Sleep checkHubThrottle :: tr)
        with ([Fetch image; LogError; Sleep checkHubThrottle] ++ tr).
      rewrite errorsLogged_app, sent_app, slept_app, length_app, IHs.
      cbn [length]. unfold checkHubThrottle, Second in *. cbn. lia.
    + match goal with
      | |- context [Fetch image :: [LogInfo; ?a] ++ Sleep checkHubThrottle :: tr] =>
          change (Fetch image :: [LogInfo; a] ++ Sleep checkHubThrottle :: tr)
            with ([Fetch image; LogInfo; a; Sleep checkHubThrottle] ++ tr)
      end.
      rewrite errorsLogged_app, sent_app, slept_app, length_app, IHs.
      cbn [length]. unfold checkHubThrottle, Second in *. cbn. lia.
Qed.

(** X15.  In a pass of the completion-polling loop every image is accounted for
    exactly once: the fetch failures logged and the actions sent add up to
    the number of images in progress, and the pass changes nothing of the
    perceptor but the state of the hub client. *)
Theorem pollingPass_accounts p :
  let r := pollingPass p in
  (errorsLogged r.2 + length (sent r.2))%nat = length (inProgressHubScans p)
  ∧ (length (sent r.2) ≤ length (inProgressHubScans p))%nat
  ∧ inProgressHubScans r.1 = inProgressHubScans p
  ∧ inProgressScanClientScans r.1 = inProgressScanClientScans p
  ∧ reducer r.1 = reducer p.
Proof.
  intros r. subst r. unfold pollingPass. cbn [fst snd].
  destruct (pollImages_counts (hubClient p) (inProgressHubScans p)) as [Hn _].
  cbn [errorsLogged]. rewrite sent_cons_sleep.
  split_and!; [exact Hn | lia | done | done | done].
Qed.

(** X16.  A pass sleeps twenty seconds and then one second after each fetch, also
    after a failed one: it never takes less than twenty seconds, and with
    nothing in progress it only sleeps. *)
Theorem pollingPass_sleeps p :
  let r := pollingPass p in
  slept r.2
  = checkHubForCompletedScansPause
    + Z.of_nat (length (inProgressHubScans p)) * checkHubThrottle
  ∧ 20 * Second ≤ slept r.2
  ∧ (inProgressHubScans p = [] →
       r.2 = [Sleep checkHubForCompletedScansPause] ∧ hubClient r.1 = hubClient p).
Proof.
  intros r. subst r. unfold pollingPass. cbn [fst snd slept].
  destruct (pollImages_counts (hubClient p) (inProgressHubScans p)) as [_ Hs].
  rewrite Hs. split_and!.
  - reflexivity.
  - unfold checkHubForCompletedScansPause, checkHubThrottle, Second. lia.
  - intros ->. done.
Qed.





End PerceptorLoops.

(** ** The error ring as a record of the most recent errors *)

Section HubRingHistory.
Import Go Hub.
Context {T : Type} `{!TimerAPI T}.

Lemma recordError_run_errors (calls : list (option error)) (hub : Hub T) :
  errors (foldl (λ hub e, recordError e hub) hub calls)
  = foldl (λ ring e, recordErrorRing e ring) (errors hub) calls.
Proof.
  revert hub. induction calls as [|c calls IH]; intros hub; [reflexivity|].
  cbn [foldl]. by rewrite IH, errors_recordError.
Qed.

Lemma ring_history (calls : list (option error)) :
  let ring := foldl (λ ring e, recordErrorRing e ring) [] calls in
  ring `suffix_of` omap id calls
  ∧ (length ring ≤ 1000)%nat
  ∧ (length (omap id calls) `min` 501 ≤ length ring)%nat.
Proof.
  induction calls as [|c calls IH] using rev_ind.
  - cbn. split_and!; [done | lia | lia].
  - cbn zeta in *. rewrite foldl_snoc, omap_app.
    set (ring := foldl (λ ring e, recordErrorRing e ring) [] calls) in *.
    destruct IH as (Hsuf & Hle & Hmin).
    destruct c as [e|]; cbn [omap id].
    + unfold recordErrorRing. case_decide as Hbig.
      * rewrite length_app in Hbig. cbn in Hbig.
        split_and!.
        -- etrans; [apply suffix_drop | by apply suffix_snoc].
        -- rewrite length_drop, length_app. cbn. lia.
        -- rewrite length_drop, !length_app. cbn. lia.
      * rewrite length_app in Hbig. cbn in Hbig.
        split_and!; [by apply suffix_snoc | |]; rewrite !length_app; cbn; lia.
    + rewrite app_nil_r. rewrite recordErrorRing_nil by exact Hle. done.
Qed.

(** X6.  On a hub made by [NewHub], after any sequence of [recordError] calls the
    ring is the most recent part of the non-nil errors recorded, in their
    order: only the oldest are ever dropped, at most 1000 are kept and the
    most recent 501 (or all, when fewer were recorded) are always there. *)
Theorem recordError_keeps_recent (h : string) (timings : Timings)
    (calls : list (option error)) :
  let ring := errors (foldl (λ hub e, recordError e hub)
                        (NewHub (T := T) h timings) calls) in
  ring `suffix_of` omap id calls
  ∧ (length ring ≤ 1000)%nat
  ∧ (length (omap id calls) `min` 501 ≤ length ring)%nat.
Proof.
  intros ring. subst ring. rewrite recordError_run_errors. apply ring_history.
Qed.

End HubRingHistory.
